(** * The attach/detach reconciler of the volume controller

    A shallow embedding of [pkg/controller/volume/reconciler/reconciler.go]
    and the properties of its reconciliation loop.

    The reconciler talks to three collaborators through Go interfaces: the
    desired state of the world, the actual state of the world and the
    attacher/detacher.  The two caches are type classes here, the
    reconciliation function is a program of a small state-and-trace monad
    over the contents of the two caches, and every call that leaves the
    reconciler (cache mutators, executor submissions, log lines) is recorded
    in the trace, in program order. *)

From Stdlib Require Import ZArith.
From stdpp Require Import gmap strings list fin_maps.

#[local] Set Warnings "-clear-no-such-hyp".
Local Open Scope Z_scope.

(** ** Data model *)

(** [time.Duration] is a signed 64-bit count of nanoseconds.  The reconciler
    only stores and compares durations, so no arithmetic can wrap here. *)
Definition Duration : Type := Z.

Definition Nanosecond : Duration := 1.
Definition Millisecond : Duration := 1000000.
Definition Second : Duration := 1000000000.

(** A Go [error] value; [None] is [nil]. *)
Definition error : Type := option string.

(** Modelled from the spec: [volume.Spec] is declared in [pkg/volume], which
    is not part of the sources at hand.  The reconciler never looks inside
    it, it only hands it to [AddVolumeNode]; the model keeps the one piece a
    cache derives from it, the unique name of the volume. *)
Record VolumeSpec : Type := Spec { UniqueVolumeName : string }.

(** [cache.VolumeToAttach]: a desired edge. *)
Module VolumeToAttach.
Record t : Type := mk {
  VolumeName : string;
  VolumeSpec : VolumeSpec;
  NodeName : string
}.
Definition key (v : t) : string * string := (VolumeName v, NodeName v).
End VolumeToAttach.

(** [cache.AttachedVolume]: an actual edge, as the enumeration of the actual
    state of the world reports it. *)
Module AttachedVolume.
Record t : Type := mk {
  VolumeName : string;
  NodeName : string;
  SafeToDetach : bool
}.
Definition key (v : t) : string * string := (VolumeName v, NodeName v).
End AttachedVolume.

#[global] Instance VolumeSpec_eq_dec : EqDecision VolumeSpec.
Proof. solve_decision. Defined.
#[global] Instance VolumeToAttach_eq_dec : EqDecision VolumeToAttach.t.
Proof. solve_decision. Defined.
#[global] Instance AttachedVolume_eq_dec : EqDecision AttachedVolume.t.
Proof. solve_decision. Defined.

(** ** The collaborators *)

(** Modelled from the spec: the interface [cache.DesiredStateOfWorld] is
    declared in [pkg/controller/volume/cache], which is not part of the
    sources at hand.  These are the two methods the reconciler calls;
    per the spec the enumeration returns a snapshot and the membership test
    is a pure lookup, so both are functions of the state of the cache. *)
Class DesiredStateOfWorld (D : Type) : Type := {
  GetVolumesToAttach : D → list VolumeToAttach.t;
  VolumeExists : string → string → D → bool
}.

(** Modelled from the spec: the interface [cache.ActualStateOfWorld] is
    declared in the same package.  These are the four methods the reconciler
    calls.  The enumeration and the membership test are reads;
    [AddVolumeNode] (the touch) and [MarkDesireToDetach] are mutators that
    may fail, and they return a pair of a value and an error, as in Go. *)
Class ActualStateOfWorld (A : Type) : Type := {
  VolumeNodeExists : string → string → A → bool;
  AddVolumeNode : VolumeSpec → string → A → (string * error) * A;
  GetAttachedVolumes : A → list AttachedVolume.t;
  MarkDesireToDetach : string → string → A → (Duration * error) * A
}.

(** What leaves the reconciler during an iteration.  The two cache mutators
    are recorded with what they returned.  [AttachVolume] and [DetachVolume]
    are the submissions to the attacher/detacher; they receive the address of
    the loop variable, and the event records the edge stored there at the
    time of the call.  The executor runs the operations on its own
    goroutines, so a submission has no effect on the caches within the
    iteration. *)
Inductive Event : Type :=
| Call_AddVolumeNode (volumeSpec : VolumeSpec) (nodeName : string)
    (result : string * error)
| Call_AttachVolume (volumeToAttach : VolumeToAttach.t)
| Call_MarkDesireToDetach (volumeName nodeName : string)
    (result : Duration * error)
| Call_DetachVolume (attachedVolume : AttachedVolume.t)
| Infof (v : Z) (format : string) (volumeName nodeName : string)
| Errorf (format : string) (err : string).

#[global] Instance Event_eq_dec : EqDecision Event.
Proof. solve_decision. Defined.

(** ** The reconciler *)

Record reconciler : Type := {
  loopPeriod : Duration;
  maxSafeToDetachDuration : Duration
}.

Definition NewReconciler (loopPeriod maxSafeToDetachDuration : Duration)
  : reconciler :=
  {| loopPeriod := loopPeriod;
     maxSafeToDetachDuration := maxSafeToDetachDuration |}.

(** [rc.desiredStateOfWorld] and [rc.actualStateOfWorld] are handles to caches
    that other components share; what they point to is the world. *)
Record World (D A : Type) : Type := mkWorld {
  desired : D;
  actual : A
}.
Arguments mkWorld {D A} _ _.
Arguments desired {D A} _.
Arguments actual {D A} _.

(** A computation reads and updates a state and appends to the trace. *)
Definition M (W R : Type) : Type := W → R * W * list Event.

Section Monad.
Context {W : Type}.

Definition ret {R} (r : R) : M W R := λ w, (r, w, []).

Definition bind {R S} (m : M W R) (k : R → M W S) : M W S :=
  λ w, let '(r, w1, t1) := m w in
       let '(s, w2, t2) := k r w1 in
       (s, w2, t1 ++ t2).

Definition emit (e : Event) : M W unit := λ w, (tt, w, [e]).

(** [for _, x := range xs { body }] *)
Fixpoint forRange {X} (xs : list X) (body : X → M W unit) : M W unit :=
  match xs with
  | [] => ret tt
  | x :: xs' => bind (body x) (λ _, forRange xs' body)
  end.

(** The state and the trace a computation ends with. *)
Definition world_of {R} (o : R * W * list Event) : W := o.1.2.
Definition trace {R} (o : R * W * list Event) : list Event := o.2.
End Monad.

Declare Scope reconciler_scope.
Delimit Scope reconciler_scope with rc.
Notation "'do' x <~ m ; k" := (bind m (λ x, k))
  (at level 10, x name, m at level 100, k at level 200) : reconciler_scope.
Notation "'do' ' p <~ m ; k" := (bind m (λ x, match x with p => k end))
  (at level 10, p pattern, m at level 100, k at level 200) : reconciler_scope.
Notation "m ;;; k" := (bind m (λ _, k))
  (at level 100, k at level 200, right associativity) : reconciler_scope.

Section ReconciliationLoop.
Context {D A : Type} `{!DesiredStateOfWorld D} `{!ActualStateOfWorld A}.
Local Open Scope reconciler_scope.
Local Abbreviation M := (M (World D A)).

(** The calls on the collaborators, as computations. *)
Definition getVolumesToAttach : M (list VolumeToAttach.t) :=
  λ w : World D A, (GetVolumesToAttach (desired w), w, []).

Definition volumeExists (volumeName nodeName : string) : M bool :=
  λ w : World D A, (VolumeExists volumeName nodeName (desired w), w, []).

Definition volumeNodeExists (volumeName nodeName : string) : M bool :=
  λ w : World D A, (VolumeNodeExists volumeName nodeName (actual w), w, []).

Definition addVolumeNode (volumeSpec : VolumeSpec) (nodeName : string)
  : M (string * error) :=
  λ w : World D A,
    let '(r, asw) := AddVolumeNode volumeSpec nodeName (actual w) in
    (r, mkWorld (desired w) asw, [Call_AddVolumeNode volumeSpec nodeName r]).

Definition getAttachedVolumes : M (list AttachedVolume.t) :=
  λ w : World D A, (GetAttachedVolumes (actual w), w, []).

Definition markDesireToDetach (volumeName nodeName : string)
  : M (Duration * error) :=
  λ w : World D A,
    let '(r, asw) := MarkDesireToDetach volumeName nodeName (actual w) in
    (r, mkWorld (desired w) asw,
     [Call_MarkDesireToDetach volumeName nodeName r]).

Definition attachVolume (volumeToAttach : VolumeToAttach.t) : M unit :=
  emit (Call_AttachVolume volumeToAttach).

Definition detachVolume (attachedVolume : AttachedVolume.t) : M unit :=
  emit (Call_DetachVolume attachedVolume).

(** [if err != nil { glog.Errorf(format, err) }] *)
Definition logIfError (format : string) (err : error) : M unit :=
  match err with
  | Some e => emit (Errorf format e)
  | None => ret tt
  end.

(** Body of the first loop: ensure volumes that should be attached are
    attached. *)
Definition ensureAttached (volumeToAttach : VolumeToAttach.t) : M unit :=
  let volumeName := VolumeToAttach.VolumeName volumeToAttach in
  let nodeName := VolumeToAttach.NodeName volumeToAttach in
  do found <~ volumeNodeExists volumeName nodeName;
  if found then
    (* Volume/Node exists, touch it to reset "safe to detach" *)
    emit (Infof 12 "Volume %q/Node %q is attached--touching."
            volumeName nodeName);;;
    do '(_, err) <~ addVolumeNode
                      (VolumeToAttach.VolumeSpec volumeToAttach) nodeName;
    logIfError "Unexpected error on actualStateOfWorld.AddVolumeNode(): %v"
      err
  else
    (* Volume/Node doesn't exist, spawn a goroutine to attach it *)
    emit (Infof 5 "Triggering AttachVolume for volume %q to node %q"
            volumeName nodeName);;;
    attachVolume volumeToAttach.

(** Body of the second loop: ensure volumes that should be detached are
    detached. *)
Definition ensureDetached (rc : reconciler)
    (attachedVolume : AttachedVolume.t) : M unit :=
  let volumeName := AttachedVolume.VolumeName attachedVolume in
  let nodeName := AttachedVolume.NodeName attachedVolume in
  do wanted <~ volumeExists volumeName nodeName;
  if negb wanted then
    (* Volume exists in actual state of world but not desired *)
    if AttachedVolume.SafeToDetach attachedVolume then
      emit (Infof 5 "Triggering DetachVolume for volume %q to node %q"
              volumeName nodeName);;;
      detachVolume attachedVolume
    else
      (* If volume is not safe to detach wait a max amount of time before
         detaching any way. *)
      do '(timeElapsed, err) <~ markDesireToDetach volumeName nodeName;
      logIfError "Unexpected error actualStateOfWorld.MarkDesireToDetach(): %v"
        err;;;
      if timeElapsed >? maxSafeToDetachDuration rc then
        emit (Infof 5 "Triggering DetachVolume for volume %q to node %q. Volume is not safe to detach, but max wait time expired."
                volumeName nodeName);;;
        detachVolume attachedVolume
      else ret tt
  else ret tt.

(** The function [reconciliationLoopFunc] returns: one iteration. *)
Definition reconciliationLoopFunc (rc : reconciler) : M unit :=
  do volumesToAttach <~ getVolumesToAttach;
  forRange volumesToAttach ensureAttached;;;
  do attachedVolumes <~ getAttachedVolumes;
  forRange attachedVolumes (ensureDetached rc).
End ReconciliationLoop.

(** ** What an iteration did, read off its trace *)

Definition attachCalls (tr : list Event) : list VolumeToAttach.t :=
  omap (λ e, match e with Call_AttachVolume v => Some v | _ => None end) tr.

Definition detachCalls (tr : list Event) : list AttachedVolume.t :=
  omap (λ e, match e with Call_DetachVolume v => Some v | _ => None end) tr.

(** The arguments of the [AddVolumeNode] calls ("touches"). *)
Definition touchCalls (tr : list Event) : list (VolumeSpec * string) :=
  omap (λ e, match e with
             | Call_AddVolumeNode s n _ => Some (s, n)
             | _ => None
             end) tr.

(** The edge keys of the [MarkDesireToDetach] calls. *)
Definition markCalls (tr : list Event) : list (string * string) :=
  omap (λ e, match e with
             | Call_MarkDesireToDetach v n _ => Some (v, n)
             | _ => None
             end) tr.

(** The edge keys of the commands submitted to the attacher/detacher. *)
Definition commandKeys (tr : list Event) : list (string * string) :=
  omap (λ e, match e with
             | Call_AttachVolume v => Some (VolumeToAttach.key v)
             | Call_DetachVolume v => Some (AttachedVolume.key v)
             | _ => None
             end) tr.

(** The trace without its log lines: the calls on the actual-state cache and
    on the attacher/detacher. *)
Definition calls (tr : list Event) : list Event :=
  omap (λ e, match e with
             | Infof _ _ _ _ | Errorf _ _ => None
             | _ => Some e
             end) tr.

(** The arguments [ensureAttached] passes to [AddVolumeNode] for an edge. *)
Definition touchOf (v : VolumeToAttach.t) : VolumeSpec * string :=
  (VolumeToAttach.VolumeSpec v, VolumeToAttach.NodeName v).

(** How many times an edge was touched. *)
Definition touches (v : VolumeToAttach.t) (tr : list Event) : nat :=
  length (filter (λ c, c = touchOf v) (touchCalls tr)).

Section Snapshots.
Context {D A : Type} `{!DesiredStateOfWorld D} `{!ActualStateOfWorld A}.

(** The slice the first loop ranges over. *)
Definition volumesToAttachSeen (w : World D A) : list VolumeToAttach.t :=
  GetVolumesToAttach (desired w).

(** The world when the first loop is over. *)
Definition afterAttachLoop (w : World D A) : World D A :=
  world_of (forRange (volumesToAttachSeen w) ensureAttached w).

(** The slice the second loop ranges over: [GetAttachedVolumes] is called
    when the first loop is over. *)
Definition attachedVolumesSeen (w : World D A) : list AttachedVolume.t :=
  GetAttachedVolumes (actual (afterAttachLoop w)).

(** The trace of one iteration started in [w]. *)
Definition iteration (rc : reconciler) (w : World D A) : list Event :=
  trace (reconciliationLoopFunc rc w).

(** The world after [n] iterations in a row. *)
Definition iterated (rc : reconciler) (n : nat) (w : World D A) : World D A :=
  Nat.iter n (λ w', world_of (reconciliationLoopFunc rc w')) w.

(** An edge of the actual state of the world that is no longer desired. *)
Definition actualOnly (w : World D A) (a : AttachedVolume.t) : Prop :=
  a ∈ attachedVolumesSeen w ∧
  VolumeExists (AttachedVolume.VolumeName a) (AttachedVolume.NodeName a)
    (desired w) = false.

(** Is the key of a desired edge in the actual state of the world? *)
Definition isAttached (w : World D A) (d : VolumeToAttach.t) : bool :=
  VolumeNodeExists (VolumeToAttach.VolumeName d) (VolumeToAttach.NodeName d)
    (actual w).

(** Contract of the caches, from the collaborator contracts of the design:
    touching a desired edge that is attached re-affirms it and leaves the
    set of actual edges as it is. *)
Definition touchKeepsMembership (w : World D A) : Prop :=
  ∀ d asw,
    d ∈ volumesToAttachSeen w →
    VolumeNodeExists (VolumeToAttach.VolumeName d)
      (VolumeToAttach.NodeName d) asw = true →
    ∀ v n,
      VolumeNodeExists v n
        (AddVolumeNode (VolumeToAttach.VolumeSpec d)
           (VolumeToAttach.NodeName d) asw).2
      = VolumeNodeExists v n asw.

(** Contract of the desired-state cache: the membership test finds every
    edge the enumeration returns. *)
Definition desiredCoherent (w : World D A) : Prop :=
  ∀ d, d ∈ volumesToAttachSeen w →
       VolumeExists (VolumeToAttach.VolumeName d)
         (VolumeToAttach.NodeName d) (desired w) = true.
End Snapshots.

(** ** Enumeration order *)

(** The same caches behind interfaces that enumerate in another order: Go
    ranges over a map in an order that changes from one loop to the next. *)
Definition reorderDesired {D : Type}
    (order : list VolumeToAttach.t → list VolumeToAttach.t)
    (cache : DesiredStateOfWorld D) : DesiredStateOfWorld D :=
  {| GetVolumesToAttach dsw := order (GetVolumesToAttach dsw);
     VolumeExists := VolumeExists |}.

Definition reorderActual {A : Type}
    (order : list AttachedVolume.t → list AttachedVolume.t)
    (cache : ActualStateOfWorld A) : ActualStateOfWorld A :=
  {| VolumeNodeExists := VolumeNodeExists;
     AddVolumeNode := AddVolumeNode;
     GetAttachedVolumes asw := order (GetAttachedVolumes asw);
     MarkDesireToDetach := MarkDesireToDetach |}.

(** Contract of the actual-state cache, from the ordering guarantee of the
    design: within an iteration the processing of one edge is independent of
    that of another.  A touch leaves the set of actual edges alone; what a
    mutator answers does not depend on an earlier call of the same mutator;
    and two calls of a mutator leave the same cache behind in either order. *)
Record edgesIndependent {A : Type} `{!ActualStateOfWorld A} : Prop := {
  touch_membership : ∀ s n (asw : A) v' n',
    VolumeNodeExists v' n' (AddVolumeNode s n asw).2 = VolumeNodeExists v' n' asw;
  touch_answer : ∀ s1 n1 s2 n2 (asw : A),
    (AddVolumeNode s2 n2 (AddVolumeNode s1 n1 asw).2).1
    = (AddVolumeNode s2 n2 asw).1;
  touch_commute : ∀ s1 n1 s2 n2 (asw : A),
    (AddVolumeNode s2 n2 (AddVolumeNode s1 n1 asw).2).2
    = (AddVolumeNode s1 n1 (AddVolumeNode s2 n2 asw).2).2;
  mark_answer : ∀ v1 n1 v2 n2 (asw : A),
    (MarkDesireToDetach v2 n2 (MarkDesireToDetach v1 n1 asw).2).1
    = (MarkDesireToDetach v2 n2 asw).1;
  mark_commute : ∀ v1 n1 v2 n2 (asw : A),
    (MarkDesireToDetach v2 n2 (MarkDesireToDetach v1 n1 asw).2).2
    = (MarkDesireToDetach v1 n1 (MarkDesireToDetach v2 n2 asw).2).2
}.
Arguments edgesIndependent A {_}.

(** ** The periodic loop *)

(** What the rest of the system does around the reconciler: how long a call
    of the loop function takes in a given world, and what the other
    components (pod and node event handlers, the executor's goroutines, the
    clock) have made of the world by a given time. *)
Record Environment (W : Type) : Type := {
  took : W → Duration;
  between : Z → W → W
}.
Arguments took {W} _ _.
Arguments between {W} _ _ _.

(** One execution of the loop function: when it began, when its body
    returned, and what it did. *)
Record Execution : Type := {
  started : Z;
  returned : Z;
  produced : list Event
}.

(** Has the stop channel been closed by time [t]?  [None] is a channel that
    is never closed. *)
Definition fired (stopCh : option Z) (t : Z) : bool :=
  match stopCh with
  | Some s => s <=? t
  | None => false
  end.

(** Modelled from the spec: [wait.Until] is in [pkg/util/wait], which is not
    part of the sources at hand.  Per the spec it executes the function once,
    then again every period, synchronously, until the stop signal fires, and
    the stop signal only prevents the scheduling of further executions.  Time
    is logical; [n] bounds the number of executions that are unrolled, since
    the loop does not end while the stop channel stays open. *)
Fixpoint Until {W} (n : nat) (f : M W unit) (period : Duration)
    (stopCh : option Z) (env : Environment W) (now : Z) (w : W)
  : list Execution :=
  match n with
  | O => []
  | S n' =>
      let o := f w in
      let finished := now + Z.max 0 (took env w) in
      let next := finished + Z.max 0 period in
      {| started := now; returned := finished; produced := trace o |} ::
      (if fired stopCh next then []
       else Until n' f period stopCh env next (between env next (world_of o)))
  end.

(** [func (rc *reconciler) Run(stopCh <-chan struct{})] *)
Definition Run {D A : Type} `{!DesiredStateOfWorld D} `{!ActualStateOfWorld A}
    (n : nat) (rc : reconciler) (stopCh : option Z)
    (env : Environment (World D A)) (now : Z) (w : World D A)
  : list Execution :=
  Until n (reconciliationLoopFunc rc) (loopPeriod rc) stopCh env now w.

(** The schedule a periodic loop is held to, stated apart from [Until]: when
    the [i]-th execution begins and the world it begins in, as long as
    nothing stops the loop.  The first execution begins at once in the world
    at hand.  The next one begins one period after the body of this one has
    returned, in the world that body left behind and the rest of the system
    has made of it by then. *)
Fixpoint nthExecution {W} (f : M W unit) (period : Duration)
    (env : Environment W) (now : Z) (w : W) (i : nat) : Z * W :=
  match i with
  | O => (now, w)
  | S i' =>
      let '(began, wi) := nthExecution f period env now w i' in
      let next := began + Z.max 0 (took env wi) + Z.max 0 period in
      (next, between env next (world_of (f wi)))
  end.

(** ** Reference caches *)

Module Cache.

(** Modelled from the spec: the desired-state cache is in
    [pkg/controller/volume/cache], which is not part of the sources at
    hand.  Per the spec it holds the set of desired edges, unique by
    [(VolumeName, NodeName)]; enumeration returns a snapshot and the
    membership test is a pure lookup. *)
Record desiredStateOfWorld : Type := {
  volumesToAttach : gmap (string * string) VolumeSpec
}.

#[global] Instance desired_cache : DesiredStateOfWorld desiredStateOfWorld := {
  GetVolumesToAttach dsw :=
    (λ kv : string * string * VolumeSpec,
       VolumeToAttach.mk kv.1.1 kv.2 kv.1.2)
      <$> map_to_list (volumesToAttach dsw);
  VolumeExists volumeName nodeName dsw :=
    match volumesToAttach dsw !! (volumeName, nodeName) with
    | Some _ => true
    | None => false
    end
}.

(** Modelled from the spec: the detach-safety bookkeeping of an actual
    edge, [SafeToDetach] and the optional [DesireToDetachSince]. *)
Record nodeAttachedTo : Type := {
  safeToDetach : bool;
  desireToDetachSince : option Z
}.

(** Modelled from the spec: the actual-state cache is in
    [pkg/controller/volume/cache], which is not part of the sources at
    hand.  Per the spec it holds the set of actual edges, unique by key,
    each with its bookkeeping.  [clock] is the time the cache reads when a
    mutator runs; it stands still during an iteration. *)
Record actualStateOfWorld : Type := {
  clock : Z;
  attachedVolumes : gmap (string * string) nodeAttachedTo
}.

Definition setSince (since : option Z) (e : nodeAttachedTo) : nodeAttachedTo :=
  {| safeToDetach := safeToDetach e; desireToDetachSince := since |}.

(** Modelled from the spec: the touch resets the grace timer if one is
    running, and fails when the edge does not exist. *)
Definition addVolumeNode (volumeSpec : VolumeSpec) (nodeName : string)
    (asw : actualStateOfWorld) : (string * error) * actualStateOfWorld :=
  let volumeName := UniqueVolumeName volumeSpec in
  match attachedVolumes asw !! (volumeName, nodeName) with
  | Some e =>
      ((volumeName, None),
       {| clock := clock asw;
          attachedVolumes :=
            <[(volumeName, nodeName) := setSince None e]>
              (attachedVolumes asw) |})
  | None => ((String.EmptyString, Some "volume/node does not exist"), asw)
  end.

(** Modelled from the spec: the mutator starts the grace timer if it is not
    running and returns the time elapsed since it started; it fails, with
    the zero duration, when the edge does not exist. *)
Definition markDesireToDetach (volumeName nodeName : string)
    (asw : actualStateOfWorld) : (Duration * error) * actualStateOfWorld :=
  match attachedVolumes asw !! (volumeName, nodeName) with
  | Some e =>
      let since := default (clock asw) (desireToDetachSince e) in
      ((clock asw - since, None),
       {| clock := clock asw;
          attachedVolumes :=
            <[(volumeName, nodeName) := setSince (Some since) e]>
              (attachedVolumes asw) |})
  | None => ((0, Some "volume/node does not exist"), asw)
  end.

#[global] Instance actual_cache : ActualStateOfWorld actualStateOfWorld := {
  VolumeNodeExists volumeName nodeName asw :=
    match attachedVolumes asw !! (volumeName, nodeName) with
    | Some _ => true
    | None => false
    end;
  AddVolumeNode := addVolumeNode;
  GetAttachedVolumes asw :=
    (λ kv : string * string * nodeAttachedTo,
       AttachedVolume.mk kv.1.1 kv.1.2 (safeToDetach kv.2))
      <$> map_to_list (attachedVolumes asw);
  MarkDesireToDetach := markDesireToDetach
}.

(** The clock of the actual-state cache reads [t]. *)
Definition at_time (t : Z) (w : World desiredStateOfWorld actualStateOfWorld)
  : World desiredStateOfWorld actualStateOfWorld :=
  mkWorld (desired w)
    {| clock := t; attachedVolumes := attachedVolumes (actual w) |}.

(** Nothing happens around the reconciler but the passing of time, and the
    loop function takes no time. *)
Definition quiet : Environment (World desiredStateOfWorld actualStateOfWorld) :=
  {| took := λ _, 0; between := at_time |}.

End Cache.


(** A fake of the actual-state cache, of the kind a unit test of the
    reconciler injects through the interface: its edges are fixed, and its two
    mutators answer what the fake was set up with and leave it as it is. *)
Module Fake.
Record actualStateOfWorld : Type := {
  attachedVolumes : list AttachedVolume.t;
  addVolumeNodeAnswer : string * error;
  markDesireToDetachAnswer : Duration * error
}.

#[global] Instance actual_cache : ActualStateOfWorld actualStateOfWorld := {
  VolumeNodeExists volumeName nodeName asw :=
    bool_decide ((volumeName, nodeName)
                 ∈ AttachedVolume.key <$> attachedVolumes asw);
  AddVolumeNode _ _ asw := (addVolumeNodeAnswer asw, asw);
  GetAttachedVolumes := attachedVolumes;
  MarkDesireToDetach _ _ asw := (markDesireToDetachAnswer asw, asw)
}.
End Fake.

(** ** Scenarios *)

Module Scenario.
Import Cache.

Abbreviation world := (World desiredStateOfWorld actualStateOfWorld).

Definition edge (volumeName nodeName : string) : string * string :=
  (volumeName, nodeName).

Definition pending (safe : bool) (since : option Z) : nodeAttachedTo :=
  {| safeToDetach := safe; desireToDetachSince := since |}.

(** [loopPeriod = 1s], [maxSafeToDetachDuration = 5s]. *)
Definition rc : reconciler := NewReconciler Second (5 * Second).

(** Scenario A at time [t]: the edge [(volA, node1)] is in the actual state
    only, it is not safe to detach, and its grace timer started at 0. *)
Definition unsafeActualOnly (t : Z) : world :=
  mkWorld {| volumesToAttach := ∅ |}
    {| clock := t;
       attachedVolumes :=
         {[ edge "volA" "node1" := pending false (Some 0) ]} |}.


(** Scenario C: the edge [(volA, node1)] is in the actual state only and is
    safe to detach. *)
Definition safeActualOnly : world :=
  mkWorld {| volumesToAttach := ∅ |}
    {| clock := 0;
       attachedVolumes := {[ edge "volA" "node1" := pending true None ]} |}.

(** Scenario D: the grace timer of [(volA, node1)] has been running for 3s
    when the edge is desired again. *)
Definition desiredAgain : world :=
  mkWorld {| volumesToAttach := {[ edge "volA" "node1" := Spec "volA" ]} |}
    {| clock := 3 * Second;
       attachedVolumes :=
         {[ edge "volA" "node1" := pending false (Some 0) ]} |}.

(** A world with one edge of every kind at time [t]: [(volA, node1)] is
    attached, no longer desired and not safe to detach, its grace timer
    started at 0; [(volB, node1)] is desired and attached; [(volC, node2)]
    is desired and not attached; [(volD, node2)] is attached, no longer
    desired and safe to detach. *)
Definition mixed (t : Z) : world :=
  mkWorld
    {| volumesToAttach :=
         {[ edge "volB" "node1" := Spec "volB";
            edge "volC" "node2" := Spec "volC" ]} |}
    {| clock := t;
       attachedVolumes :=
         {[ edge "volA" "node1" := pending false (Some 0);
            edge "volB" "node1" := pending false None;
            edge "volD" "node2" := pending true None ]} |}.

Definition volA : AttachedVolume.t := AttachedVolume.mk "volA" "node1" false.

(** The edge [(volA, node1)] is in the actual state only and is not safe to
    detach, and [MarkDesireToDetach] fails, returning the duration
    [timeElapsed] next to its error. *)
Definition markFails (timeElapsed : Duration)
  : World desiredStateOfWorld Fake.actualStateOfWorld :=
  mkWorld {| volumesToAttach := ∅ |}
    {| Fake.attachedVolumes := [volA];
       Fake.addVolumeNodeAnswer := ("volA", None);
       Fake.markDesireToDetachAnswer :=
         (timeElapsed, Some "volume/node does not exist") |}.
Definition volA_safe : AttachedVolume.t :=
  AttachedVolume.mk "volA" "node1" true.
Definition volA_wanted : VolumeToAttach.t :=
  VolumeToAttach.mk "volA" (Spec "volA") "node1".
Definition volB : VolumeToAttach.t :=
  VolumeToAttach.mk "volB" (Spec "volB") "node1".
Definition volC : VolumeToAttach.t :=
  VolumeToAttach.mk "volC" (Spec "volC") "node2".
Definition volD : AttachedVolume.t := AttachedVolume.mk "volD" "node2" true.
End Scenario.

(** ** Log lines *)

(** The [glog.Errorf] lines of a trace: the format and the error. *)
Definition errorLines (tr : list Event) : list (string * string) :=
  omap (λ e, match e with Errorf f msg => Some (f, msg) | _ => None end) tr.

(** The volume and node of the [glog.V(v).Infof] lines of a trace. *)
Definition infoLines (v : Z) (tr : list Event) : list (string * string) :=
  omap (λ e, match e with
             | Infof v' _ volumeName nodeName =>
                 if decide (v' = v) then Some (volumeName, nodeName) else None
             | _ => None
             end) tr.

(** The two formats of [glog.Errorf] in [reconciliationLoopFunc]. *)
Definition addVolumeNodeFailed : string :=
  "Unexpected error on actualStateOfWorld.AddVolumeNode(): %v".
Definition markDesireToDetachFailed : string :=
  "Unexpected error actualStateOfWorld.MarkDesireToDetach(): %v".

(** The mutator calls of a trace that returned an error, each with the format
    [reconciliationLoopFunc] logs it under. *)
Definition mutatorErrors (tr : list Event) : list (string * string) :=
  omap (λ e, match e with
             | Call_AddVolumeNode _ _ (_, Some msg) =>
                 Some (addVolumeNodeFailed, msg)
             | Call_MarkDesireToDetach _ _ (_, Some msg) =>
                 Some (markDesireToDetachFailed, msg)
             | _ => None
             end) tr.

(** * Properties *)

(** ** Lists *)

(** In a list without duplicate keys an element is determined by its key. *)
Lemma NoDup_fmap_inj {X K} (f : X → K) (l : list X) (x y : X) :
  NoDup (f <$> l) → x ∈ l → y ∈ l → f x = f y → x = y.
Proof.
  induction l as [|z l IH]; csimpl; [by intros _ ?%elem_of_nil|].
  rewrite NoDup_cons, !elem_of_cons, list_elem_of_fmap.
  intros [Hz Hl] [->|Hx] [->|Hy] Heq; auto.
  - destruct Hz. exists y. auto.
  - destruct Hz. exists x. auto.
Qed.

Lemma filter_eq_not_elem_of {X} `{!EqDecision X} (x : X) (l : list X) :
  x ∉ l → filter (λ y, y = x) l = [].
Proof.
  induction l as [|z l IH]; [done|].
  rewrite not_elem_of_cons. intros [Hne Hl].
  rewrite filter_cons_False by congruence. auto.
Qed.

(** Among the images of the elements that pass a test, the image of one of
    them occurs once when the images of all elements are distinct. *)
Lemma count_fmap_filter_NoDup {X K} `{!EqDecision K} (f : X → K)
    (P : X → Prop) `{!∀ x, Decision (P x)} (l : list X) (x : X) :
  NoDup (f <$> l) → x ∈ l → P x →
  length (filter (λ k, k = f x) (f <$> filter P l)) = 1%nat.
Proof.
  induction l as [|z l IH]; csimpl; [by intros _ ?%elem_of_nil|].
  rewrite NoDup_cons, elem_of_cons. intros [Hz Hl] Hx HP.
  destruct (decide (f z = f x)) as [Heq|Hne].
  - assert (x = z) as ->.
    { destruct Hx as [|Hx]; [done|].
      destruct Hz. rewrite Heq. by apply list_elem_of_fmap_2. }
    rewrite filter_cons_True by done. csimpl.
    rewrite filter_cons_True by done. simpl. f_equal.
    rewrite filter_eq_not_elem_of; [done|].
    intros (y & Hy & Hin%list_elem_of_filter)%list_elem_of_fmap.
    destruct Hz. rewrite Hy. apply list_elem_of_fmap_2. tauto.
  - destruct Hx as [->|Hx]; [done|].
    rewrite filter_cons. case_decide; csimpl.
    + rewrite filter_cons_False by done. auto.
    + auto.
Qed.

(** ** The monad and the range loop *)

Section MonadFacts.
Context {W : Type}.

Lemma trace_bind {R S} (m : M W R) (k : R → M W S) (w : W) :
  trace (bind m k w) = trace (m w) ++ trace (k (m w).1.1 (world_of (m w))).
Proof.
  unfold bind, trace, world_of.
  destruct (m w) as [[r w1] t1]; simpl.
  by destruct (k r w1) as [[s w2] t2].
Qed.

Lemma world_of_bind {R S} (m : M W R) (k : R → M W S) (w : W) :
  world_of (bind m k w) = world_of (k (m w).1.1 (world_of (m w))).
Proof.
  unfold bind, world_of.
  destruct (m w) as [[r w1] t1]; simpl.
  by destruct (k r w1) as [[s w2] t2].
Qed.

Lemma trace_forRange_cons {X} (x : X) (xs : list X) (f : X → M W unit) w :
  trace (forRange (x :: xs) f w)
  = trace (f x w) ++ trace (forRange xs f (world_of (f x w))).
Proof. simpl. by rewrite trace_bind. Qed.

Lemma world_of_forRange_cons {X} (x : X) (xs : list X) (f : X → M W unit) w :
  world_of (forRange (x :: xs) f w) = world_of (forRange xs f (world_of (f x w))).
Proof. simpl. by rewrite world_of_bind. Qed.

Lemma world_of_forRange_app {X} (l1 l2 : list X) (f : X → M W unit) w :
  world_of (forRange (l1 ++ l2) f w)
  = world_of (forRange l2 f (world_of (forRange l1 f w))).
Proof.
  revert w. induction l1 as [|x l1 IH]; intros w; [done|].
  rewrite <- app_comm_cons, !world_of_forRange_cons. apply IH.
Qed.

Lemma trace_forRange_app {X} (l1 l2 : list X) (f : X → M W unit) w :
  trace (forRange (l1 ++ l2) f w)
  = trace (forRange l1 f w)
    ++ trace (forRange l2 f (world_of (forRange l1 f w))).
Proof.
  revert w. induction l1 as [|x l1 IH]; intros w; [done|].
  rewrite <- app_comm_cons, !trace_forRange_cons, world_of_forRange_cons, IH.
  by rewrite app_assoc.
Qed.

(** An event of a range loop is an event of one of its rounds. *)
Lemma elem_of_trace_forRange {X} (l : list X) (f : X → M W unit) w e :
  e ∈ trace (forRange l f w) ↔
  ∃ l1 x l2, l = l1 ++ x :: l2 ∧
             e ∈ trace (f x (world_of (forRange l1 f w))).
Proof.
  split.
  - revert w. induction l as [|x l IH]; intros w.
    + simpl. by intros ?%elem_of_nil.
    + rewrite trace_forRange_cons, elem_of_app. intros [He|He].
      * by exists [], x, l.
      * destruct (IH _ He) as (l1 & y & l2 & -> & Hy).
        exists (x :: l1), y, l2. split; [done|].
        by rewrite world_of_forRange_cons.
  - intros (l1 & x & l2 & -> & He).
    rewrite trace_forRange_app, trace_forRange_cons, !elem_of_app. tauto.
Qed.

(** A property of the state that every round keeps holds when the loop is
    over. *)
Lemma forRange_invariant {X} (P : W → Prop) (l : list X) (f : X → M W unit) w :
  (∀ x w', x ∈ l → P w' → P (world_of (f x w'))) →
  P w → P (world_of (forRange l f w)).
Proof.
  revert w. induction l as [|x l IH]; intros w Hstep Hw; [done|].
  rewrite world_of_forRange_cons. apply IH.
  - intros y w' Hy. apply Hstep. by right.
  - apply Hstep; [by left|done].
Qed.
End MonadFacts.

(** ** One round of each loop *)

Section Rounds.
Context {D A : Type} `{!DesiredStateOfWorld D} `{!ActualStateOfWorld A}.
Implicit Types (w : World D A) (rc : reconciler).
Implicit Types (d : VolumeToAttach.t) (a : AttachedVolume.t).

Lemma calls_app (t1 t2 : list Event) : calls (t1 ++ t2) = calls t1 ++ calls t2.
Proof. apply omap_app. Qed.

Lemma elem_of_calls (e : Event) (tr : list Event) :
  e ∈ calls tr ↔
  e ∈ tr ∧ match e with Infof _ _ _ _ | Errorf _ _ => False | _ => True end.
Proof.
  unfold calls. rewrite list_elem_of_omap. split.
  - intros (x & Hx & Heq). destruct x; simplify_eq; done.
  - intros [He Hcall]. exists e. split; [done|]. by destruct e.
Qed.

Lemma calls_ensureAttached d w :
  calls (trace (ensureAttached d w)) =
  if isAttached w d then
    [Call_AddVolumeNode (VolumeToAttach.VolumeSpec d) (VolumeToAttach.NodeName d)
       (AddVolumeNode (VolumeToAttach.VolumeSpec d)
          (VolumeToAttach.NodeName d) (actual w)).1]
  else [Call_AttachVolume d].
Proof.
  unfold ensureAttached, isAttached, bind, volumeNodeExists, addVolumeNode,
    attachVolume, emit, trace; simpl.
  destruct (VolumeNodeExists _ _ (actual w)); simpl; [|done].
  destruct (AddVolumeNode _ _ (actual w)) as [[name [err|]] asw]; done.
Qed.

Lemma world_of_ensureAttached d w :
  world_of (ensureAttached d w) =
  if isAttached w d then
    mkWorld (desired w)
      (AddVolumeNode (VolumeToAttach.VolumeSpec d)
         (VolumeToAttach.NodeName d) (actual w)).2
  else w.
Proof.
  unfold ensureAttached, isAttached, bind, volumeNodeExists, addVolumeNode,
    attachVolume, emit, world_of; simpl.
  destruct (VolumeNodeExists _ _ (actual w)); simpl; [|done].
  destruct (AddVolumeNode _ _ (actual w)) as [[name [err|]] asw]; done.
Qed.

Lemma calls_ensureDetached rc a w :
  calls (trace (ensureDetached rc a w)) =
  if VolumeExists (AttachedVolume.VolumeName a) (AttachedVolume.NodeName a)
       (desired w)
  then []
  else if AttachedVolume.SafeToDetach a then [Call_DetachVolume a]
  else
    let r := (MarkDesireToDetach (AttachedVolume.VolumeName a)
                (AttachedVolume.NodeName a) (actual w)).1 in
    Call_MarkDesireToDetach (AttachedVolume.VolumeName a)
      (AttachedVolume.NodeName a) r
    :: (if r.1 >? maxSafeToDetachDuration rc then [Call_DetachVolume a]
        else []).
Proof.
  unfold ensureDetached, bind, volumeExists, markDesireToDetach,
    detachVolume, emit, trace; simpl.
  destruct (VolumeExists _ _ (desired w)); simpl; [done|].
  destruct (AttachedVolume.SafeToDetach a); simpl; [done|].
  destruct (MarkDesireToDetach _ _ (actual w))
    as [[timeElapsed [err|]] asw]; simpl;
    by destruct (timeElapsed >? maxSafeToDetachDuration rc).
Qed.

Lemma world_of_ensureDetached rc a w :
  world_of (ensureDetached rc a w) =
  if VolumeExists (AttachedVolume.VolumeName a) (AttachedVolume.NodeName a)
       (desired w)
  then w
  else if AttachedVolume.SafeToDetach a then w
  else mkWorld (desired w)
         (MarkDesireToDetach (AttachedVolume.VolumeName a)
            (AttachedVolume.NodeName a) (actual w)).2.
Proof.
  unfold ensureDetached, bind, volumeExists, markDesireToDetach,
    detachVolume, emit, world_of; simpl.
  destruct (VolumeExists _ _ (desired w)); simpl; [done|].
  destruct (AttachedVolume.SafeToDetach a); simpl; [done|].
  destruct (MarkDesireToDetach _ _ (actual w))
    as [[timeElapsed [err|]] asw]; simpl;
    by destruct (timeElapsed >? maxSafeToDetachDuration rc).
Qed.

(** No round writes to the desired state of the world. *)
Lemma desired_ensureAttached d w :
  desired (world_of (ensureAttached d w)) = desired w.
Proof. rewrite world_of_ensureAttached. by destruct (isAttached w d). Qed.

Lemma desired_ensureDetached rc a w :
  desired (world_of (ensureDetached rc a w)) = desired w.
Proof.
  rewrite world_of_ensureDetached.
  by destruct (VolumeExists _ _ _), (AttachedVolume.SafeToDetach a).
Qed.

Lemma desired_attachLoop (l : list VolumeToAttach.t) w :
  desired (world_of (forRange l ensureAttached w)) = desired w.
Proof.
  apply (forRange_invariant (λ w', desired w' = desired w)); [|done].
  intros d w' _ <-. apply desired_ensureAttached.
Qed.

Lemma desired_detachLoop rc (l : list AttachedVolume.t) w :
  desired (world_of (forRange l (ensureDetached rc) w)) = desired w.
Proof.
  apply (forRange_invariant (λ w', desired w' = desired w)); [|done].
  intros a w' _ <-. apply desired_ensureDetached.
Qed.

(** An iteration is the first loop followed by the second. *)
Lemma iteration_loops rc w :
  iteration rc w =
  trace (forRange (volumesToAttachSeen w) ensureAttached w)
  ++ trace (forRange (attachedVolumesSeen w) (ensureDetached rc)
              (afterAttachLoop w)).
Proof.
  unfold iteration, reconciliationLoopFunc, attachedVolumesSeen,
    afterAttachLoop, volumesToAttachSeen, getVolumesToAttach,
    getAttachedVolumes, bind, trace, world_of; simpl.
  destruct (forRange _ ensureAttached w) as [[[] w1] t1]; simpl.
  by destruct (forRange _ (ensureDetached rc) w1) as [[[] w2] t2].
Qed.

Lemma world_of_iteration rc w :
  world_of (reconciliationLoopFunc rc w) =
  world_of (forRange (attachedVolumesSeen w) (ensureDetached rc)
              (afterAttachLoop w)).
Proof.
  unfold reconciliationLoopFunc, attachedVolumesSeen,
    afterAttachLoop, volumesToAttachSeen, getVolumesToAttach,
    getAttachedVolumes, bind, trace, world_of; simpl.
  destruct (forRange _ ensureAttached w) as [[[] w1] t1]; simpl.
  by destruct (forRange _ (ensureDetached rc) w1) as [[[] w2] t2].
Qed.
End Rounds.

(** ** The two loops *)

(** Case analysis on every condition a hypothesis branches on. *)
Ltac split_ifs H :=
  repeat match type of H with
         | context [if ?c then _ else _] => destruct c
         end.

Section Loops.
Context {D A : Type} `{!DesiredStateOfWorld D} `{!ActualStateOfWorld A}.
Implicit Types (w : World D A) (rc : reconciler).
Implicit Types (d : VolumeToAttach.t) (a : AttachedVolume.t).

(** *** Rounds of the second loop, event by event *)

Lemma detach_in_round rc a w a' :
  Call_DetachVolume a' ∈ trace (ensureDetached rc a w) ↔
  a' = a ∧
  VolumeExists (AttachedVolume.VolumeName a) (AttachedVolume.NodeName a)
    (desired w) = false ∧
  (AttachedVolume.SafeToDetach a = true ∨
   AttachedVolume.SafeToDetach a = false ∧
   maxSafeToDetachDuration rc
   < (MarkDesireToDetach (AttachedVolume.VolumeName a)
        (AttachedVolume.NodeName a) (actual w)).1.1).
Proof.
  transitivity (Call_DetachVolume a' ∈ calls (trace (ensureDetached rc a w))).
  { rewrite elem_of_calls. tauto. }
  rewrite calls_ensureDetached.
  destruct (VolumeExists _ _ _);
    [rewrite elem_of_nil; naive_solver|].
  destruct (AttachedVolume.SafeToDetach a);
    [rewrite elem_of_cons, elem_of_nil; naive_solver|]. simpl.
  destruct (Z.gtb_spec
              (MarkDesireToDetach (AttachedVolume.VolumeName a)
                 (AttachedVolume.NodeName a) (actual w)).1.1
              (maxSafeToDetachDuration rc)) as [Hgt|Hle];
    rewrite ?elem_of_cons, ?elem_of_nil; naive_solver lia.
Qed.

Lemma mark_in_round rc a w v n r :
  Call_MarkDesireToDetach v n r ∈ trace (ensureDetached rc a w) ↔
  (v, n) = AttachedVolume.key a ∧
  VolumeExists (AttachedVolume.VolumeName a) (AttachedVolume.NodeName a)
    (desired w) = false ∧
  AttachedVolume.SafeToDetach a = false ∧
  r = (MarkDesireToDetach (AttachedVolume.VolumeName a)
         (AttachedVolume.NodeName a) (actual w)).1.
Proof.
  transitivity
    (Call_MarkDesireToDetach v n r ∈ calls (trace (ensureDetached rc a w))).
  { rewrite elem_of_calls. tauto. }
  rewrite calls_ensureDetached. unfold AttachedVolume.key.
  destruct (VolumeExists _ _ _);
    [rewrite elem_of_nil; naive_solver|].
  destruct (AttachedVolume.SafeToDetach a);
    [rewrite elem_of_cons, elem_of_nil; naive_solver|]. simpl.
  destruct (_ >? _); rewrite ?elem_of_cons, ?elem_of_nil; naive_solver.
Qed.

Lemma other_in_detach_round rc a w e :
  e ∈ trace (ensureDetached rc a w) →
  match e with
  | Call_AttachVolume _ | Call_AddVolumeNode _ _ _ => False
  | _ => True
  end.
Proof.
  intros He. destruct e; try done.
  - assert (Hc : Call_AddVolumeNode volumeSpec nodeName result
                 ∈ calls (trace (ensureDetached rc a w)))
      by (by apply elem_of_calls).
    rewrite calls_ensureDetached in Hc. cbv zeta in Hc.
    split_ifs Hc; rewrite ?elem_of_cons, ?elem_of_nil in Hc; naive_solver.
  - assert (Hc : Call_AttachVolume volumeToAttach
                 ∈ calls (trace (ensureDetached rc a w)))
      by (by apply elem_of_calls).
    rewrite calls_ensureDetached in Hc. cbv zeta in Hc.
    split_ifs Hc; rewrite ?elem_of_cons, ?elem_of_nil in Hc; naive_solver.
Qed.

Lemma other_in_attach_round d w e :
  e ∈ trace (ensureAttached d w) →
  match e with
  | Call_DetachVolume _ | Call_MarkDesireToDetach _ _ _ => False
  | _ => True
  end.
Proof.
  intros He. destruct e; try done.
  - assert (Hc : Call_MarkDesireToDetach volumeName nodeName result
                 ∈ calls (trace (ensureAttached d w)))
      by (by apply elem_of_calls).
    rewrite calls_ensureAttached in Hc.
    split_ifs Hc; rewrite ?elem_of_cons, ?elem_of_nil in Hc; naive_solver.
  - assert (Hc : Call_DetachVolume attachedVolume
                 ∈ calls (trace (ensureAttached d w)))
      by (by apply elem_of_calls).
    rewrite calls_ensureAttached in Hc.
    split_ifs Hc; rewrite ?elem_of_cons, ?elem_of_nil in Hc; naive_solver.
Qed.

(** *** The second loop *)

Section DetachLoop.
Variables (rc : reconciler) (l : list AttachedVolume.t) (w1 : World D A).
Let tr := trace (forRange l (ensureDetached rc) w1).

Lemma detach_in_detachLoop a :
  Call_DetachVolume a ∈ tr →
  a ∈ l ∧
  VolumeExists (AttachedVolume.VolumeName a) (AttachedVolume.NodeName a)
    (desired w1) = false ∧
  (AttachedVolume.SafeToDetach a = true ∨
   ∃ e err,
     Call_MarkDesireToDetach (AttachedVolume.VolumeName a)
       (AttachedVolume.NodeName a) (e, err) ∈ tr ∧
     maxSafeToDetachDuration rc < e).
Proof.
  subst tr. intros (l1 & x & l2 & Hl & Hx)%elem_of_trace_forRange.
  apply detach_in_round in Hx as (-> & Hwanted & Hwhy).
  rewrite desired_detachLoop in Hwanted.
  split; [set_solver|]. split; [done|].
  destruct Hwhy as [?|[Hunsafe Hgt]]; [by left|right].
  destruct (MarkDesireToDetach (AttachedVolume.VolumeName x)
              (AttachedVolume.NodeName x)
              (actual (world_of (forRange l1 (ensureDetached rc) w1))))
    as [[e err] asw] eqn:Hmark.
  exists e, err. split; [|done].
  apply elem_of_trace_forRange. exists l1, x, l2. split; [done|].
  apply mark_in_round. rewrite desired_detachLoop, Hmark. done.
Qed.

Lemma safe_detach_in_detachLoop a :
  a ∈ l →
  VolumeExists (AttachedVolume.VolumeName a) (AttachedVolume.NodeName a)
    (desired w1) = false →
  AttachedVolume.SafeToDetach a = true →
  Call_DetachVolume a ∈ tr.
Proof.
  subst tr. intros (l1 & l2 & ->)%list_elem_of_split Hwanted Hsafe.
  apply elem_of_trace_forRange. exists l1, a, l2. split; [done|].
  apply detach_in_round. rewrite desired_detachLoop. auto.
Qed.

Lemma mark_in_detachLoop v n r :
  Call_MarkDesireToDetach v n r ∈ tr →
  ∃ a, a ∈ l ∧ (v, n) = AttachedVolume.key a ∧
       VolumeExists v n (desired w1) = false ∧
       AttachedVolume.SafeToDetach a = false.
Proof.
  subst tr. intros (l1 & x & l2 & Hl & Hx)%elem_of_trace_forRange.
  apply mark_in_round in Hx as (Hkey & Hwanted & Hunsafe & _).
  rewrite desired_detachLoop in Hwanted.
  exists x. split; [set_solver|]. unfold AttachedVolume.key in Hkey.
  by simplify_eq.
Qed.

Lemma unsafe_marked_in_detachLoop a :
  a ∈ l →
  VolumeExists (AttachedVolume.VolumeName a) (AttachedVolume.NodeName a)
    (desired w1) = false →
  AttachedVolume.SafeToDetach a = false →
  ∃ r, Call_MarkDesireToDetach (AttachedVolume.VolumeName a)
         (AttachedVolume.NodeName a) r ∈ tr.
Proof.
  subst tr. intros (l1 & l2 & ->)%list_elem_of_split Hwanted Hunsafe.
  eexists. apply elem_of_trace_forRange. exists l1, a, l2. split; [done|].
  apply mark_in_round. rewrite desired_detachLoop. done.
Qed.

Lemma forced_detach_in_detachLoop a e err :
  Call_MarkDesireToDetach (AttachedVolume.VolumeName a)
    (AttachedVolume.NodeName a) (e, err) ∈ tr →
  maxSafeToDetachDuration rc < e →
  AttachedVolume.SafeToDetach a = false →
  Call_DetachVolume a ∈ tr.
Proof.
  subst tr. intros (l1 & x & l2 & Hl & Hx)%elem_of_trace_forRange Hgt Hunsafe.
  apply mark_in_round in Hx as (Hkey & Hwanted & Hunsafe' & Hr).
  assert (x = a) as ->.
  { destruct x, a; unfold AttachedVolume.key in *; simpl in *.
    by simplify_eq. }
  apply elem_of_trace_forRange. exists l1, a, l2. split; [done|].
  apply detach_in_round. split; [done|]. split; [done|]. right.
  split; [done|]. by rewrite <- Hr.
Qed.

Lemma no_attach_in_detachLoop e :
  e ∈ tr →
  match e with
  | Call_AttachVolume _ | Call_AddVolumeNode _ _ _ => False
  | _ => True
  end.
Proof.
  subst tr. intros (l1 & x & l2 & Hl & Hx)%elem_of_trace_forRange.
  by eapply other_in_detach_round.
Qed.
End DetachLoop.

Lemma no_detach_in_attachLoop (l : list VolumeToAttach.t) w e :
  e ∈ trace (forRange l ensureAttached w) →
  match e with
  | Call_DetachVolume _ | Call_MarkDesireToDetach _ _ _ => False
  | _ => True
  end.
Proof.
  intros (l1 & x & l2 & Hl & Hx)%elem_of_trace_forRange.
  by eapply other_in_attach_round.
Qed.
End Loops.

(** ** Detaching *)

Section Detach.
Context {D A : Type} `{!DesiredStateOfWorld D} `{!ActualStateOfWorld A}.
Implicit Types (w : World D A) (rc : reconciler) (a : AttachedVolume.t).

Lemma desired_afterAttachLoop w : desired (afterAttachLoop w) = desired w.
Proof. apply desired_attachLoop. Qed.

(** The detach commands and the grace-timer calls of an iteration are
    those of its second loop. *)
Lemma detach_in_iteration rc w a :
  Call_DetachVolume a ∈ iteration rc w ↔
  Call_DetachVolume a
  ∈ trace (forRange (attachedVolumesSeen w) (ensureDetached rc)
             (afterAttachLoop w)).
Proof.
  rewrite iteration_loops, elem_of_app. split; [|by right].
  intros [Hin|?]; [|done]. by apply no_detach_in_attachLoop in Hin.
Qed.

Lemma mark_in_iteration rc w v n r :
  Call_MarkDesireToDetach v n r ∈ iteration rc w ↔
  Call_MarkDesireToDetach v n r
  ∈ trace (forRange (attachedVolumesSeen w) (ensureDetached rc)
             (afterAttachLoop w)).
Proof.
  rewrite iteration_loops, elem_of_app. split; [|by right].
  intros [Hin|?]; [|done]. by apply no_detach_in_attachLoop in Hin.
Qed.

Lemma elem_of_markCalls (tr : list Event) v n :
  (v, n) ∈ markCalls tr ↔ ∃ r, Call_MarkDesireToDetach v n r ∈ tr.
Proof.
  unfold markCalls. rewrite list_elem_of_omap. split.
  - intros ([] & Hin & Heq); simplify_eq. by eexists.
  - intros [r Hin]. by eexists.
Qed.

(** C1.  An edge of the actual state that is no longer desired and is not
    safe to detach: the reconciler calls [MarkDesireToDetach] for it, and
    it submits a detach command for it exactly when a duration that call
    returned is greater than [maxSafeToDetachDuration].  The world is
    arbitrary, so this holds in each iteration: no detach before the
    threshold is exceeded, and a forced detach in every iteration in which
    it is. *)
Theorem forced_detach_after_grace rc w a :
  actualOnly w a →
  AttachedVolume.SafeToDetach a = false →
  AttachedVolume.key a ∈ markCalls (iteration rc w) ∧
  (Call_DetachVolume a ∈ iteration rc w ↔
   ∃ timeElapsed err,
     Call_MarkDesireToDetach (AttachedVolume.VolumeName a)
       (AttachedVolume.NodeName a) (timeElapsed, err) ∈ iteration rc w ∧
     maxSafeToDetachDuration rc < timeElapsed).
Proof.
  intros [Hseen Hunwanted] Hunsafe.
  rewrite <- desired_afterAttachLoop in Hunwanted. split.
  - apply elem_of_markCalls.
    destruct (unsafe_marked_in_detachLoop rc _ _ a Hseen Hunwanted Hunsafe)
      as [r Hr].
    exists r. by apply mark_in_iteration.
  - rewrite detach_in_iteration. split.
    + intros (_ & _ & [Hsafe|(e & err & Hmark & Hgt)])%detach_in_detachLoop.
      * congruence.
      * exists e, err. by rewrite mark_in_iteration.
    + intros (e & err & Hmark%mark_in_iteration & Hgt).
      by eapply forced_detach_in_detachLoop.
Qed.

(** C2.  An edge of the actual state that is no longer desired and is safe
    to detach: the iteration that sees it submits a detach command for it,
    and, edges being unique by key in the enumeration, makes no
    [MarkDesireToDetach] call for it. *)
Theorem safe_detach_at_once rc w a :
  NoDup (AttachedVolume.key <$> attachedVolumesSeen w) →
  actualOnly w a →
  AttachedVolume.SafeToDetach a = true →
  Call_DetachVolume a ∈ iteration rc w ∧
  AttachedVolume.key a ∉ markCalls (iteration rc w).
Proof.
  intros Hnodup [Hseen Hunwanted] Hsafe.
  rewrite <- desired_afterAttachLoop in Hunwanted. split.
  - apply detach_in_iteration. by apply safe_detach_in_detachLoop.
  - unfold AttachedVolume.key at 1.
    intros [r Hr%mark_in_iteration]%elem_of_markCalls.
    apply mark_in_detachLoop in Hr as (a' & Hseen' & Hkey & _ & Hunsafe).
    assert (a' = a) as ->; [|congruence].
    by eapply (NoDup_fmap_inj AttachedVolume.key).
Qed.
End Detach.

(** A run of C1: at 6s the grace timer of [(volA, node1)], started at 0, is
    past the 5s maximum. *)
Lemma forced_detach_after_grace_witness :
  actualOnly (Scenario.mixed (6 * Second)) Scenario.volA ∧
  AttachedVolume.SafeToDetach Scenario.volA = false ∧
  Call_DetachVolume Scenario.volA
  ∈ iteration Scenario.rc (Scenario.mixed (6 * Second)).
Proof.
  assert (Hseen : actualOnly (Scenario.mixed (6 * Second)) Scenario.volA).
  { split; [|reflexivity]. compute_done. }
  split; [exact Hseen|]. split; [reflexivity|].
  apply (forced_detach_after_grace Scenario.rc _ _ Hseen eq_refl).
  exists (6 * Second), None. split; [|reflexivity].
  compute_done.
Defined.

(** A run of C2: [(volD, node2)] is detached at once. *)
Lemma safe_detach_at_once_witness :
  NoDup (AttachedVolume.key <$> attachedVolumesSeen (Scenario.mixed 0)) ∧
  actualOnly (Scenario.mixed 0) Scenario.volD ∧
  AttachedVolume.SafeToDetach Scenario.volD = true ∧
  Call_DetachVolume Scenario.volD ∈ iteration Scenario.rc (Scenario.mixed 0) ∧
  AttachedVolume.key Scenario.volD
  ∉ markCalls (iteration Scenario.rc (Scenario.mixed 0)).
Proof.
  assert (Hnodup :
    NoDup (AttachedVolume.key <$> attachedVolumesSeen (Scenario.mixed 0))).
  { compute_done. }
  assert (Hseen : actualOnly (Scenario.mixed 0) Scenario.volD).
  { split; [|reflexivity]. compute_done. }
  split; [exact Hnodup|]. split; [exact Hseen|]. split; [reflexivity|].
  exact (safe_detach_at_once Scenario.rc _ _ Hnodup Hseen eq_refl).
Defined.

(** ** Attaching *)

Section Attach.
Context {D A : Type} `{!DesiredStateOfWorld D} `{!ActualStateOfWorld A}.
Implicit Types (w : World D A) (rc : reconciler) (d : VolumeToAttach.t).

Lemma attachCalls_calls (tr : list Event) :
  attachCalls (calls tr) = attachCalls tr.
Proof.
  induction tr as [|[] tr IH]; csimpl; rewrite ?IH; done.
Qed.

Lemma touchCalls_calls (tr : list Event) :
  touchCalls (calls tr) = touchCalls tr.
Proof.
  induction tr as [|[] tr IH]; csimpl; rewrite ?IH; done.
Qed.

Lemma commandKeys_calls (tr : list Event) :
  commandKeys (calls tr) = commandKeys tr.
Proof.
  induction tr as [|[] tr IH]; csimpl; rewrite ?IH; done.
Qed.

(** While the first loop runs, the set of actual edges stays what it was
    when the iteration began. *)
Lemma stable_attachLoop w (l : list VolumeToAttach.t) w' :
  touchKeepsMembership w →
  l ⊆ volumesToAttachSeen w →
  (∀ v n, VolumeNodeExists v n (actual w') = VolumeNodeExists v n (actual w)) →
  ∀ v n,
    VolumeNodeExists v n (actual (world_of (forRange l ensureAttached w')))
    = VolumeNodeExists v n (actual w).
Proof.
  intros Htouch Hl Hw'.
  apply (forRange_invariant
           (λ w1, ∀ v n, VolumeNodeExists v n (actual w1)
                         = VolumeNodeExists v n (actual w))); [|done].
  intros d w1 Hd Hw1 v n. rewrite world_of_ensureAttached.
  destruct (isAttached w1 d) eqn:Hatt; [|done]. simpl.
  rewrite Htouch; auto.
Qed.

Lemma calls_attachLoop w (l : list VolumeToAttach.t) w' :
  touchKeepsMembership w →
  l ⊆ volumesToAttachSeen w →
  (∀ v n, VolumeNodeExists v n (actual w') = VolumeNodeExists v n (actual w)) →
  attachCalls (trace (forRange l ensureAttached w'))
  = filter (λ d, isAttached w d = false) l ∧
  touchCalls (trace (forRange l ensureAttached w'))
  = touchOf <$> filter (λ d, isAttached w d = true) l.
Proof.
  intros Htouch. revert w'.
  induction l as [|d l IH]; intros w' Hl Hw'; [done|].
  assert (Hd : d ∈ volumesToAttachSeen w) by (apply Hl; by left).
  assert (Hl' : l ⊆ volumesToAttachSeen w).
  { intros x Hx. apply Hl. by right. }
  assert (Hsame : isAttached w' d = isAttached w d) by apply Hw'.
  destruct (IH (world_of (ensureAttached d w')) Hl') as [IHa IHt].
  { rewrite world_of_ensureAttached.
    destruct (isAttached w' d) eqn:Hatt; [|done]. simpl.
    intros v n. rewrite Htouch; auto. }
  rewrite trace_forRange_cons. unfold attachCalls, touchCalls in *.
  rewrite !omap_app, IHa, IHt.
  fold (attachCalls (trace (ensureAttached d w'))).
  fold (touchCalls (trace (ensureAttached d w'))).
  rewrite <- attachCalls_calls, <- touchCalls_calls, calls_ensureAttached.
  rewrite Hsame, !filter_cons.
  destruct (isAttached w d); repeat case_decide; done.
Qed.

(** The second loop neither attaches nor touches. *)
Lemma attachCalls_detachLoop rc (l : list AttachedVolume.t) w :
  attachCalls (trace (forRange l (ensureDetached rc) w)) = [] ∧
  touchCalls (trace (forRange l (ensureDetached rc) w)) = [].
Proof.
  revert w. induction l as [|a l IH]; intros w; [done|].
  rewrite trace_forRange_cons. unfold attachCalls, touchCalls in *.
  rewrite !omap_app.
  destruct (IH (world_of (ensureDetached rc a w))) as [-> ->].
  fold (attachCalls (trace (ensureDetached rc a w))).
  fold (touchCalls (trace (ensureDetached rc a w))).
  rewrite <- attachCalls_calls, <- touchCalls_calls, calls_ensureDetached.
  cbv zeta. by repeat case_match.
Qed.

(** The attach commands and the touches of an iteration, in order. *)
Lemma attachCalls_iteration rc w :
  touchKeepsMembership w →
  attachCalls (iteration rc w)
  = filter (λ d, isAttached w d = false) (volumesToAttachSeen w).
Proof.
  intros Htouch. rewrite iteration_loops. unfold attachCalls.
  rewrite omap_app. fold (attachCalls
    (trace (forRange (attachedVolumesSeen w) (ensureDetached rc)
              (afterAttachLoop w)))).
  rewrite (proj1 (attachCalls_detachLoop _ _ _)), app_nil_r.
  by apply calls_attachLoop.
Qed.

Lemma touchCalls_iteration rc w :
  touchKeepsMembership w →
  touchCalls (iteration rc w)
  = touchOf <$> filter (λ d, isAttached w d = true) (volumesToAttachSeen w).
Proof.
  intros Htouch. rewrite iteration_loops. unfold touchCalls.
  rewrite omap_app. fold (touchCalls
    (trace (forRange (attachedVolumesSeen w) (ensureDetached rc)
              (afterAttachLoop w)))).
  rewrite (proj2 (attachCalls_detachLoop _ _ _)), app_nil_r.
  by apply calls_attachLoop.
Qed.

(** C3.  A desired edge whose key is in the actual state is touched once
    and not attached; a desired edge whose key is not is attached.  The
    world is arbitrary, so this holds in every iteration, and the attach
    command is submitted again for as long as the edge is missing from the
    actual state.  The enumeration of the desired edges lists no edge
    twice, and touching leaves the set of actual edges alone. *)
Theorem touch_or_attach rc w d :
  touchKeepsMembership w →
  NoDup (touchOf <$> volumesToAttachSeen w) →
  d ∈ volumesToAttachSeen w →
  (isAttached w d = true →
   touches d (iteration rc w) = 1%nat ∧ d ∉ attachCalls (iteration rc w)) ∧
  (isAttached w d = false → d ∈ attachCalls (iteration rc w)).
Proof.
  intros Htouch Hnodup Hd. unfold touches.
  rewrite attachCalls_iteration, touchCalls_iteration by done.
  split; intros Hatt.
  - split.
    + by apply (count_fmap_filter_NoDup touchOf).
    + rewrite list_elem_of_filter. intros [? _]. congruence.
  - by apply list_elem_of_filter.
Qed.
End Attach.

(** ** The reference caches keep the contracts *)

Section CacheContracts.
Import Cache.
Implicit Types (w : Scenario.world).

Lemma Cache_touch_membership volumeSpec nodeName (asw : actualStateOfWorld) v n :
  VolumeNodeExists v n (AddVolumeNode volumeSpec nodeName asw).2
  = VolumeNodeExists v n asw.
Proof.
  simpl. unfold addVolumeNode.
  destruct (attachedVolumes asw !! (UniqueVolumeName volumeSpec, nodeName))
    as [e|] eqn:He; [|done]. simpl.
  destruct (decide ((UniqueVolumeName volumeSpec, nodeName) = (v, n)))
    as [<-|Hne].
  - by rewrite lookup_insert_eq, He.
  - by rewrite lookup_insert_ne.
Qed.

Lemma Cache_touchKeepsMembership w : touchKeepsMembership w.
Proof. intros d asw _ _ v n. apply Cache_touch_membership. Qed.

Lemma Cache_desiredCoherent w : desiredCoherent w.
Proof.
  intros d (kv & -> & Hkv)%list_elem_of_fmap. simpl.
  destruct kv as [[v n] volumeSpec].
  apply elem_of_map_to_list in Hkv. simpl. by rewrite Hkv.
Qed.

Lemma Cache_desired_NoDup w :
  NoDup (VolumeToAttach.key <$> volumesToAttachSeen w).
Proof.
  unfold volumesToAttachSeen. simpl. rewrite <- list_fmap_compose.
  rewrite (list_fmap_ext _ fst); [|by intros i [[v n] s] _].
  apply (NoDup_fst_map_to_list (volumesToAttach (desired w))).
Qed.

Lemma Cache_actual_NoDup w :
  NoDup (AttachedVolume.key <$> attachedVolumesSeen w).
Proof.
  unfold attachedVolumesSeen. simpl. rewrite <- list_fmap_compose.
  rewrite (list_fmap_ext _ fst); [|by intros i [[v n] e] _].
  apply (NoDup_fst_map_to_list (attachedVolumes (actual (afterAttachLoop w)))).
Qed.
End CacheContracts.

(** A run of C3: [(volB, node1)] is attached and desired, [(volC, node2)] is
    desired only. *)
Lemma touch_or_attach_witness :
  touchKeepsMembership (Scenario.mixed 0) ∧
  NoDup (touchOf <$> volumesToAttachSeen (Scenario.mixed 0)) ∧
  (isAttached (Scenario.mixed 0) Scenario.volB = true ∧
   touches Scenario.volB (iteration Scenario.rc (Scenario.mixed 0)) = 1%nat ∧
   Scenario.volB ∉ attachCalls (iteration Scenario.rc (Scenario.mixed 0))) ∧
  (isAttached (Scenario.mixed 0) Scenario.volC = false ∧
   Scenario.volC ∈ attachCalls (iteration Scenario.rc (Scenario.mixed 0))).
Proof.
  assert (Hnodup : NoDup (touchOf <$> volumesToAttachSeen (Scenario.mixed 0)))
    by compute_done.
  assert (HB : Scenario.volB ∈ volumesToAttachSeen (Scenario.mixed 0))
    by compute_done.
  assert (HC : Scenario.volC ∈ volumesToAttachSeen (Scenario.mixed 0))
    by compute_done.
  split; [apply Cache_touchKeepsMembership|]. split; [exact Hnodup|]. split.
  - split; [reflexivity|].
    exact (proj1 (touch_or_attach Scenario.rc _ _
                    (Cache_touchKeepsMembership _) Hnodup HB) eq_refl).
  - split; [reflexivity|].
    exact (proj2 (touch_or_attach Scenario.rc _ _
                    (Cache_touchKeepsMembership _) Hnodup HC) eq_refl).
Defined.

(** ** An edge that is desired again *)

Section TimerReset.
Context {D A : Type} `{!DesiredStateOfWorld D} `{!ActualStateOfWorld A}.
Implicit Types (w : World D A) (rc : reconciler) (d : VolumeToAttach.t).

(** The second loop passes over an edge the desired state has. *)
Lemma wanted_not_detached rc w (a : AttachedVolume.t) :
  VolumeExists (AttachedVolume.VolumeName a) (AttachedVolume.NodeName a)
    (desired w) = true →
  (Call_DetachVolume a ∉ iteration rc w) ∧
  (AttachedVolume.key a ∉ markCalls (iteration rc w)).
Proof.
  intros Hwanted. split.
  - intros Hin%detach_in_iteration%detach_in_detachLoop.
    destruct Hin as (Hseen & Hno & Hwhy).
    rewrite desired_afterAttachLoop in Hno. congruence.
  - intros [r Hr%mark_in_iteration]%elem_of_markCalls.
    apply mark_in_detachLoop in Hr as (a' & Hseen & Hkey & Hno & Hunsafe).
    rewrite desired_afterAttachLoop in Hno. congruence.
Qed.

(** C6.  An edge that is attached and in the desired snapshot, whatever
    the state of its grace timer: the iteration touches it, submits no
    detach command for its key and does not call [MarkDesireToDetach] for
    it; the second loop passes over it. *)
Theorem desired_again_is_touched rc w d :
  touchKeepsMembership w →
  desiredCoherent w →
  d ∈ volumesToAttachSeen w →
  isAttached w d = true →
  touchOf d ∈ touchCalls (iteration rc w) ∧
  (VolumeToAttach.key d ∉ markCalls (iteration rc w)) ∧
  ∀ a, AttachedVolume.key a = VolumeToAttach.key d →
       Call_DetachVolume a ∉ iteration rc w.
Proof.
  intros Htouch Hcoherent Hd Hatt.
  assert (Hwanted : ∀ a, AttachedVolume.key a = VolumeToAttach.key d →
            VolumeExists (AttachedVolume.VolumeName a)
              (AttachedVolume.NodeName a) (desired w) = true).
  { intros a Hkey. unfold AttachedVolume.key, VolumeToAttach.key in Hkey.
    injection Hkey as -> ->. by apply Hcoherent. }
  split; [|split].
  - rewrite touchCalls_iteration by done.
    apply list_elem_of_fmap_2. by apply list_elem_of_filter.
  - pose (a := AttachedVolume.mk (VolumeToAttach.VolumeName d)
                 (VolumeToAttach.NodeName d) false).
    apply (wanted_not_detached rc w a). by apply Hwanted.
  - intros a Hkey. by apply wanted_not_detached, Hwanted.
Qed.
End TimerReset.

(** A run of C6, Scenario D: the timer of [(volA, node1)] has run for 3s of
    the 5s when the edge is desired again. *)
Lemma desired_again_is_touched_witness :
  touchKeepsMembership Scenario.desiredAgain ∧
  desiredCoherent Scenario.desiredAgain ∧
  Scenario.volA_wanted ∈ volumesToAttachSeen Scenario.desiredAgain ∧
  isAttached Scenario.desiredAgain Scenario.volA_wanted = true ∧
  touchOf Scenario.volA_wanted
  ∈ touchCalls (iteration Scenario.rc Scenario.desiredAgain) ∧
  Call_DetachVolume Scenario.volA
  ∉ iteration Scenario.rc Scenario.desiredAgain.
Proof.
  assert (Hd : Scenario.volA_wanted ∈ volumesToAttachSeen Scenario.desiredAgain)
    by compute_done.
  pose proof (desired_again_is_touched Scenario.rc _ _
                (Cache_touchKeepsMembership _) (Cache_desiredCoherent _)
                Hd eq_refl) as (Htouched & _ & Hkept).
  split; [apply Cache_touchKeepsMembership|].
  split; [apply Cache_desiredCoherent|].
  split; [exact Hd|]. split; [reflexivity|]. split; [exact Htouched|].
  apply Hkept. reflexivity.
Defined.

(** ** Commands per edge *)

Section Commands.
Context {D A : Type} `{!DesiredStateOfWorld D} `{!ActualStateOfWorld A}.
Implicit Types (w : World D A) (rc : reconciler).

Lemma elem_of_attachCalls (tr : list Event) d :
  d ∈ attachCalls tr ↔ Call_AttachVolume d ∈ tr.
Proof.
  unfold attachCalls. rewrite list_elem_of_omap. split.
  - intros ([] & Hin & Heq); by simplify_eq.
  - intros Hin. by eexists.
Qed.

Lemma elem_of_detachCalls (tr : list Event) a :
  a ∈ detachCalls tr ↔ Call_DetachVolume a ∈ tr.
Proof.
  unfold detachCalls. rewrite list_elem_of_omap. split.
  - intros ([] & Hin & Heq); by simplify_eq.
  - intros Hin. by eexists.
Qed.

Lemma detachCalls_calls (tr : list Event) :
  detachCalls (calls tr) = detachCalls tr.
Proof.
  induction tr as [|[] tr IH]; csimpl; rewrite ?IH; done.
Qed.

(** In a trace without detach commands the commands are the attach
    commands, and the other way round. *)
Lemma commandKeys_attach_only (tr : list Event) :
  (∀ a, Call_DetachVolume a ∉ tr) →
  commandKeys tr = VolumeToAttach.key <$> attachCalls tr.
Proof.
  induction tr as [|e tr IH]; intros Hno; [done|].
  assert (commandKeys tr = VolumeToAttach.key <$> attachCalls tr) as IH'.
  { apply IH. intros a Ha. apply (Hno a). by right. }
  destruct e; csimpl; rewrite ?IH'; try done.
  destruct (Hno attachedVolume). by left.
Qed.

Lemma commandKeys_detach_only (tr : list Event) :
  (∀ d, Call_AttachVolume d ∉ tr) →
  commandKeys tr = AttachedVolume.key <$> detachCalls tr.
Proof.
  induction tr as [|e tr IH]; intros Hno; [done|].
  assert (commandKeys tr = AttachedVolume.key <$> detachCalls tr) as IH'.
  { apply IH. intros a Ha. apply (Hno a). by right. }
  destruct e; csimpl; rewrite ?IH'; try done.
  destruct (Hno volumeToAttach). by left.
Qed.

(** The detach commands of the second loop follow the enumeration. *)
Lemma detachCalls_detachLoop_sublist rc (l : list AttachedVolume.t) w :
  detachCalls (trace (forRange l (ensureDetached rc) w)) `sublist_of` l.
Proof.
  revert w. induction l as [|a l IH]; intros w; [done|].
  rewrite trace_forRange_cons. unfold detachCalls. rewrite omap_app.
  fold (detachCalls (trace (ensureDetached rc a w))).
  fold (detachCalls (trace (forRange l (ensureDetached rc)
                              (world_of (ensureDetached rc a w))))).
  rewrite <- (detachCalls_calls (trace (ensureDetached rc a w))).
  rewrite calls_ensureDetached. cbv zeta.
  repeat case_match; csimpl;
    first [ by apply sublist_skip | by apply sublist_cons ].
Qed.

(** C10.  With edges unique by key in both enumerations and a desired
    cache whose membership test agrees with its enumeration, an iteration
    submits at most one command per edge key, so never both an attach and
    a detach for one key.  An attach is submitted only for an edge of the
    desired snapshot whose key is not in the actual state, a detach only
    for an edge of the actual snapshot whose key is not in the desired
    snapshot. *)
Theorem one_command_per_edge rc w :
  touchKeepsMembership w →
  desiredCoherent w →
  NoDup (VolumeToAttach.key <$> volumesToAttachSeen w) →
  NoDup (AttachedVolume.key <$> attachedVolumesSeen w) →
  NoDup (commandKeys (iteration rc w)) ∧
  (∀ d, d ∈ attachCalls (iteration rc w) →
        d ∈ volumesToAttachSeen w ∧ isAttached w d = false) ∧
  (∀ a, a ∈ detachCalls (iteration rc w) →
        a ∈ attachedVolumesSeen w ∧
        AttachedVolume.key a ∉ VolumeToAttach.key <$> volumesToAttachSeen w).
Proof.
  intros Htouch Hcoherent Hdesired Hactual.
  assert (Hdetached : ∀ a, a ∈ detachCalls (iteration rc w) →
            a ∈ attachedVolumesSeen w ∧
            AttachedVolume.key a
            ∉ VolumeToAttach.key <$> volumesToAttachSeen w).
  { intros a Ha%elem_of_detachCalls%detach_in_iteration%detach_in_detachLoop.
    destruct Ha as (Hseen & Hno & _). split; [done|].
    rewrite desired_afterAttachLoop in Hno.
    intros (d & Hkey & Hd)%list_elem_of_fmap.
    apply Hcoherent in Hd. unfold AttachedVolume.key, VolumeToAttach.key in Hkey.
    injection Hkey as Hv Hn. rewrite Hv, Hn in Hno. congruence. }
  split; [|split; [|done]].
  - rewrite iteration_loops. unfold commandKeys. rewrite omap_app.
    fold (commandKeys (trace (forRange (volumesToAttachSeen w)
                                ensureAttached w))).
    fold (commandKeys (trace (forRange (attachedVolumesSeen w)
                                (ensureDetached rc) (afterAttachLoop w)))).
    rewrite commandKeys_attach_only, commandKeys_detach_only; cycle 1.
    { intros d Hd. by apply no_attach_in_detachLoop in Hd. }
    { intros a Ha. by apply no_detach_in_attachLoop in Ha. }
    apply NoDup_app. split; [|split].
    + eapply sublist_NoDup; [exact Hdesired|].
      apply fmap_sublist.
      pose proof (calls_attachLoop w (volumesToAttachSeen w) w Htouch) as [-> _];
        [done..|]. apply sublist_filter.
    + intros k (d & -> & Hd%elem_of_attachCalls)%list_elem_of_fmap
               (a & Hkey & Ha)%list_elem_of_fmap.
      destruct (Hdetached a) as [_ Habsent].
      { apply elem_of_detachCalls. rewrite iteration_loops, elem_of_app.
        right. by apply elem_of_detachCalls. }
      apply Habsent. rewrite <- Hkey. apply list_elem_of_fmap_2.
      apply elem_of_trace_forRange in Hd as (l1 & x & l2 & Hl & Hx).
      assert (x = d) as ->.
      { assert (Hc : Call_AttachVolume d ∈ calls (trace (ensureAttached x
                   (world_of (forRange l1 ensureAttached w)))))
          by (by apply elem_of_calls).
        rewrite calls_ensureAttached in Hc.
        split_ifs Hc; rewrite ?elem_of_cons, ?elem_of_nil in Hc; naive_solver. }
      rewrite Hl. set_solver.
    + eapply sublist_NoDup; [exact Hactual|].
      apply fmap_sublist, detachCalls_detachLoop_sublist.
  - intros d Hd. rewrite attachCalls_iteration in Hd by done.
    by apply list_elem_of_filter in Hd as [? ?].
Qed.
End Commands.

(** A run of C10: one attach for [(volC, node2)], one detach each for
    [(volA, node1)] and [(volD, node2)]. *)
Lemma one_command_per_edge_witness :
  touchKeepsMembership (Scenario.mixed (6 * Second)) ∧
  desiredCoherent (Scenario.mixed (6 * Second)) ∧
  NoDup (VolumeToAttach.key <$> volumesToAttachSeen (Scenario.mixed (6 * Second))) ∧
  NoDup (AttachedVolume.key <$> attachedVolumesSeen (Scenario.mixed (6 * Second))) ∧
  NoDup (commandKeys (iteration Scenario.rc (Scenario.mixed (6 * Second)))) ∧
  commandKeys (iteration Scenario.rc (Scenario.mixed (6 * Second)))
  = [("volC", "node2"); ("volA", "node1"); ("volD", "node2")]%string.
Proof.
  split; [apply Cache_touchKeepsMembership|].
  split; [apply Cache_desiredCoherent|].
  split; [apply Cache_desired_NoDup|].
  split; [apply Cache_actual_NoDup|].
  split; [|compute_done].
  exact (proj1 (one_command_per_edge Scenario.rc _
                  (Cache_touchKeepsMembership _) (Cache_desiredCoherent _)
                  (Cache_desired_NoDup _) (Cache_actual_NoDup _))).
Defined.

(** ** The desired state of the world is only read *)

Section Frame.
Context {D A : Type} `{!DesiredStateOfWorld D} `{!ActualStateOfWorld A}.
Implicit Types (w : World D A) (rc : reconciler).

Lemma desired_iteration rc w :
  desired (world_of (reconciliationLoopFunc rc w)) = desired w.
Proof.
  rewrite world_of_iteration, desired_detachLoop.
  apply desired_afterAttachLoop.
Qed.

(** C8.  An iteration leaves the desired state of the world as it found
    it, and so does any number of iterations: the reconciler calls nothing
    on that cache but its enumeration and its membership test, which
    read. *)
Theorem desired_state_is_not_written rc w (n : nat) :
  desired (world_of (reconciliationLoopFunc rc w)) = desired w ∧
  desired (iterated rc n w) = desired w ∧
  volumesToAttachSeen (iterated rc n w) = volumesToAttachSeen w.
Proof.
  split; [apply desired_iteration|].
  assert (Hn : desired (iterated rc n w) = desired w).
  { induction n as [|n IH]; [done|].
    unfold iterated in *. simpl. by rewrite desired_iteration. }
  split; [done|]. unfold volumesToAttachSeen. by rewrite Hn.
Qed.
End Frame.

(** ** The threshold of the forced detach *)

Section Threshold.
Import Cache.

Lemma unsafeActualOnly_seen t :
  volumesToAttachSeen (Scenario.unsafeActualOnly t) = [] ∧
  afterAttachLoop (Scenario.unsafeActualOnly t) = Scenario.unsafeActualOnly t ∧
  attachedVolumesSeen (Scenario.unsafeActualOnly t) = [Scenario.volA].
Proof.
  assert (H0 : volumesToAttachSeen (Scenario.unsafeActualOnly t) = []).
  { unfold volumesToAttachSeen. simpl. by rewrite map_to_list_empty. }
  assert (H1 : afterAttachLoop (Scenario.unsafeActualOnly t)
               = Scenario.unsafeActualOnly t).
  { unfold afterAttachLoop. by rewrite H0. }
  split; [done|]. split; [done|].
  unfold attachedVolumesSeen. rewrite H1. simpl.
  by rewrite map_to_list_singleton.
Qed.

Lemma unsafeActualOnly_elapsed t :
  (MarkDesireToDetach "volA" "node1" (actual (Scenario.unsafeActualOnly t))).1
  = (t, None).
Proof.
  simpl. unfold markDesireToDetach, Scenario.edge. simpl.
  rewrite lookup_singleton_eq. simpl. f_equal. lia.
Qed.

(** C4, as the code has it.  Scenario A with the clock at [t]: the grace
    timer of [(volA, node1)] started at 0, so [MarkDesireToDetach] returns
    [t], and the forced detach is submitted exactly when [t] is greater
    than the 5s of [maxSafeToDetachDuration]. *)
Theorem forced_detach_threshold_is_strict (t : Z) :
  Call_MarkDesireToDetach "volA" "node1" (t, None)
  ∈ iteration Scenario.rc (Scenario.unsafeActualOnly t) ∧
  (Call_DetachVolume Scenario.volA
   ∈ iteration Scenario.rc (Scenario.unsafeActualOnly t)
   ↔ 5 * Second < t).
Proof.
  destruct (unsafeActualOnly_seen t) as (_ & Hafter & Hseen).
  rewrite mark_in_iteration, detach_in_iteration, Hafter, Hseen.
  rewrite !trace_forRange_cons. simpl. rewrite !app_nil_r.
  rewrite mark_in_round, detach_in_round.
  change (AttachedVolume.VolumeName Scenario.volA) with "volA".
  change (AttachedVolume.NodeName Scenario.volA) with "node1".
  rewrite unsafeActualOnly_elapsed.
  change (maxSafeToDetachDuration Scenario.rc) with (5 * Second).
  simpl. rewrite lookup_empty.
  split; [repeat split; reflexivity|]. split.
  - intros (_ & _ & [Hsafe|[_ Hgt]]); [discriminate Hsafe|exact Hgt].
  - intros Hgt. split; [reflexivity|]. split; [reflexivity|].
    right. split; [reflexivity|exact Hgt].
Qed.

(** C4 as stated fails: in the iteration in which the elapsed time is
    exactly the 5s of [maxSafeToDetachDuration], no detach is submitted. *)
Lemma no_forced_detach_at_exactly_max :
  maxSafeToDetachDuration Scenario.rc = 5 * Second ∧
  Call_MarkDesireToDetach "volA" "node1" (5 * Second, None)
  ∈ iteration Scenario.rc (Scenario.unsafeActualOnly (5 * Second)) ∧
  ¬ Call_DetachVolume Scenario.volA
    ∈ iteration Scenario.rc (Scenario.unsafeActualOnly (5 * Second)).
Proof.
  split; [reflexivity|]. split; [compute_done|].
  apply (bool_decide_unpack _). vm_compute. exact I.
Qed.
End Threshold.

(** ** A failing [MarkDesireToDetach] *)

Section MarkFails.
Context {D A : Type} `{!DesiredStateOfWorld D} `{!ActualStateOfWorld A}.
Implicit Types (w : World D A) (rc : reconciler) (a : AttachedVolume.t).

(** The error of the mutator is logged in the round that received it. *)
Lemma errorf_in_round rc a w timeElapsed msg :
  VolumeExists (AttachedVolume.VolumeName a) (AttachedVolume.NodeName a)
    (desired w) = false →
  AttachedVolume.SafeToDetach a = false →
  (MarkDesireToDetach (AttachedVolume.VolumeName a)
     (AttachedVolume.NodeName a) (actual w)).1 = (timeElapsed, Some msg) →
  Errorf "Unexpected error actualStateOfWorld.MarkDesireToDetach(): %v" msg
  ∈ trace (ensureDetached rc a w).
Proof.
  intros Hunwanted Hunsafe Hmark.
  unfold ensureDetached, bind, volumeExists, markDesireToDetach,
    detachVolume, emit, trace; simpl.
  rewrite Hunwanted, Hunsafe. simpl.
  destruct (MarkDesireToDetach _ _ (actual w)) as [r asw].
  simpl in Hmark. subst r. simpl.
  destruct (timeElapsed >? maxSafeToDetachDuration rc); simpl;
    rewrite !elem_of_cons; auto.
Qed.

Lemma errorf_in_iteration rc w v n timeElapsed msg :
  Call_MarkDesireToDetach v n (timeElapsed, Some msg) ∈ iteration rc w →
  Errorf "Unexpected error actualStateOfWorld.MarkDesireToDetach(): %v" msg
  ∈ iteration rc w.
Proof.
  intros Hmark%mark_in_iteration.
  apply elem_of_trace_forRange in Hmark as (l1 & x & l2 & Hl & Hx).
  apply mark_in_round in Hx as (_ & Hunwanted & Hunsafe & Hr).
  rewrite iteration_loops, elem_of_app. right.
  apply elem_of_trace_forRange. exists l1, x, l2. split; [done|].
  by eapply errorf_in_round.
Qed.

(** C5, as the code has it.  For an edge of the actual state that is no
    longer desired and not safe to detach: an error of
    [MarkDesireToDetach] is logged, and the duration returned next to it
    is compared with [maxSafeToDetachDuration] all the same.  No detach
    is submitted for the edge when no returned duration is greater than
    the maximum, and one is submitted when a returned duration is.  The
    other edges are processed whatever that call returned: every other
    edge that is no longer desired gets its detach command or its
    [MarkDesireToDetach] call. *)
Theorem mark_error_is_logged_not_fatal rc w a :
  actualOnly w a →
  AttachedVolume.SafeToDetach a = false →
  (∀ timeElapsed msg,
     Call_MarkDesireToDetach (AttachedVolume.VolumeName a)
       (AttachedVolume.NodeName a) (timeElapsed, Some msg) ∈ iteration rc w →
     Errorf "Unexpected error actualStateOfWorld.MarkDesireToDetach(): %v" msg
     ∈ iteration rc w ∧
     (maxSafeToDetachDuration rc < timeElapsed →
      Call_DetachVolume a ∈ iteration rc w)) ∧
  ((∀ timeElapsed err,
      Call_MarkDesireToDetach (AttachedVolume.VolumeName a)
        (AttachedVolume.NodeName a) (timeElapsed, err) ∈ iteration rc w →
      timeElapsed ≤ maxSafeToDetachDuration rc) →
   Call_DetachVolume a ∉ iteration rc w) ∧
  (∀ a', actualOnly w a' →
         if AttachedVolume.SafeToDetach a'
         then Call_DetachVolume a' ∈ iteration rc w
         else AttachedVolume.key a' ∈ markCalls (iteration rc w)).
Proof.
  intros [Hseen Hunwanted] Hunsafe. split; [|split].
  - intros timeElapsed msg Hmark. split.
    + by eapply errorf_in_iteration.
    + intros Hgt. apply detach_in_iteration.
      apply mark_in_iteration in Hmark.
      by eapply forced_detach_in_detachLoop.
  - intros Hle Hdetach%detach_in_iteration%detach_in_detachLoop.
    destruct Hdetach as (_ & _ & [Hsafe|(e & err & Hmark & Hgt)]);
      [congruence|].
    apply mark_in_iteration, Hle in Hmark. lia.
  - intros a' [Hseen' Hunwanted'].
    rewrite <- desired_afterAttachLoop in Hunwanted'.
    destruct (AttachedVolume.SafeToDetach a') eqn:Hsafe'.
    + apply detach_in_iteration. by apply safe_detach_in_detachLoop.
    + apply elem_of_markCalls.
      destruct (unsafe_marked_in_detachLoop rc _ _ a' Hseen' Hunwanted' Hsafe')
        as [r Hr].
      exists r. by apply mark_in_iteration.
Qed.
End MarkFails.

(** C5 as stated fails: [MarkDesireToDetach] returns an error next to a
    duration of 6s, the maximum is 5s, and the detach command is
    submitted. *)
Lemma detach_despite_mark_error :
  actualOnly (Scenario.markFails (6 * Second)) Scenario.volA ∧
  Call_MarkDesireToDetach "volA" "node1"
    (6 * Second, Some "volume/node does not exist")
  ∈ iteration Scenario.rc (Scenario.markFails (6 * Second)) ∧
  Call_DetachVolume Scenario.volA
  ∈ iteration Scenario.rc (Scenario.markFails (6 * Second)).
Proof.
  split; [|split]; [|compute_done..].
  split; [compute_done|reflexivity].
Qed.

(** A run of C5: the failing call returns the zero duration; the error is
    logged and no detach is submitted. *)
Lemma mark_error_is_logged_not_fatal_witness :
  actualOnly (Scenario.markFails 0) Scenario.volA ∧
  AttachedVolume.SafeToDetach Scenario.volA = false ∧
  Errorf "Unexpected error actualStateOfWorld.MarkDesireToDetach(): %v"
    "volume/node does not exist"
  ∈ iteration Scenario.rc (Scenario.markFails 0) ∧
  Call_DetachVolume Scenario.volA ∉ iteration Scenario.rc (Scenario.markFails 0).
Proof.
  assert (Hseen : actualOnly (Scenario.markFails 0) Scenario.volA).
  { split; [compute_done|reflexivity]. }
  destruct (mark_error_is_logged_not_fatal Scenario.rc _ _ Hseen eq_refl)
    as (Hlogged & Hquiet & _).
  split; [exact Hseen|]. split; [reflexivity|]. split.
  - apply (Hlogged 0). compute_done.
  - apply Hquiet. intros timeElapsed err Hmark.
    apply mark_in_iteration in Hmark. vm_compute in Hmark.
    apply elem_of_cons in Hmark as [Heq|Hnil%elem_of_cons].
    + injection Heq as -> _. done.
    + destruct Hnil as [Heq|Hnil%elem_of_nil]; [discriminate|done].
Defined.

(** ** Enumeration order *)

Section RangeOrder.
Context {W : Type}.

(** A range loop whose rounds commute ends in the same state, with the
    same events, in whatever order it visits its elements. *)
Lemma forRange_Permutation {X} (f : X → M W unit) (l1 l2 : list X) :
  (∀ x y w,
     world_of (f y (world_of (f x w))) = world_of (f x (world_of (f y w))) ∧
     trace (f y (world_of (f x w))) = trace (f y w)) →
  l1 ≡ₚ l2 →
  ∀ w, world_of (forRange l1 f w) = world_of (forRange l2 f w) ∧
       trace (forRange l1 f w) ≡ₚ trace (forRange l2 f w).
Proof.
  intros Hcommute. induction 1 as [|x l1 l2 _ IH|x y l|l1 l2 l3 _ IH1 _ IH2];
    intros w.
  - done.
  - rewrite !world_of_forRange_cons, !trace_forRange_cons.
    destruct (IH (world_of (f x w))) as [-> ->]. done.
  - rewrite !world_of_forRange_cons, !trace_forRange_cons.
    destruct (Hcommute x y w) as [Hw Hy], (Hcommute y x w) as [_ Hx].
    rewrite Hw, Hx, Hy. split; [done|].
    rewrite !app_assoc. f_equiv. apply Permutation_app_comm.
  - destruct (IH1 w) as [-> ->]. apply IH2.
Qed.
End RangeOrder.

Section Order.
Context {D A : Type} `{!DesiredStateOfWorld D} `{!ActualStateOfWorld A}.
Implicit Types (w : World D A) (rc : reconciler).

(** What a round logs and calls is decided by what the caches answer. *)
Lemma trace_ensureAttached_ext (d : VolumeToAttach.t) w w' :
  isAttached w d = isAttached w' d →
  (AddVolumeNode (VolumeToAttach.VolumeSpec d) (VolumeToAttach.NodeName d)
     (actual w)).1
  = (AddVolumeNode (VolumeToAttach.VolumeSpec d) (VolumeToAttach.NodeName d)
       (actual w')).1 →
  trace (ensureAttached d w) = trace (ensureAttached d w').
Proof.
  unfold ensureAttached, isAttached, bind, volumeNodeExists, addVolumeNode,
    attachVolume, emit, trace; simpl.
  intros <-. destruct (VolumeNodeExists _ _ (actual w)); simpl; [|done].
  destruct (AddVolumeNode _ _ (actual w)) as [r asw],
           (AddVolumeNode _ _ (actual w')) as [r' asw']; simpl.
  intros <-. by destruct r as [name [err|]].
Qed.

Lemma trace_ensureDetached_ext rc (a : AttachedVolume.t) w w' :
  desired w = desired w' →
  (MarkDesireToDetach (AttachedVolume.VolumeName a)
     (AttachedVolume.NodeName a) (actual w)).1
  = (MarkDesireToDetach (AttachedVolume.VolumeName a)
       (AttachedVolume.NodeName a) (actual w')).1 →
  trace (ensureDetached rc a w) = trace (ensureDetached rc a w').
Proof.
  unfold ensureDetached, bind, volumeExists, markDesireToDetach,
    detachVolume, emit, trace; simpl.
  intros <-. destruct (VolumeExists _ _ (desired w)); simpl; [done|].
  destruct (AttachedVolume.SafeToDetach a); simpl; [done|].
  destruct (MarkDesireToDetach _ _ (actual w)) as [r asw],
           (MarkDesireToDetach _ _ (actual w')) as [r' asw']; simpl.
  intros <-. destruct r as [timeElapsed [err|]]; simpl;
    by destruct (timeElapsed >? maxSafeToDetachDuration rc).
Qed.

Hypothesis independent : edgesIndependent A.

Lemma ensureAttached_commute (x y : VolumeToAttach.t) w :
  world_of (ensureAttached y (world_of (ensureAttached x w)))
  = world_of (ensureAttached x (world_of (ensureAttached y w))) ∧
  trace (ensureAttached y (world_of (ensureAttached x w)))
  = trace (ensureAttached y w).
Proof.
  assert (Hatt : ∀ d d', isAttached (world_of (ensureAttached d w)) d'
                         = isAttached w d').
  { intros d d'. rewrite world_of_ensureAttached. unfold isAttached.
    destruct (VolumeNodeExists _ _ (actual w)); [|done]. simpl.
    apply (touch_membership independent). }
  split.
  - rewrite !(world_of_ensureAttached _ (world_of _)), !Hatt.
    rewrite !world_of_ensureAttached.
    destruct (isAttached w x), (isAttached w y); simpl; try done.
    by rewrite (touch_commute independent).
  - apply trace_ensureAttached_ext; [apply Hatt|].
    rewrite world_of_ensureAttached.
    destruct (isAttached w x); [|done]. simpl.
    apply (touch_answer independent).
Qed.

Lemma ensureDetached_commute rc (x y : AttachedVolume.t) w :
  world_of (ensureDetached rc y (world_of (ensureDetached rc x w)))
  = world_of (ensureDetached rc x (world_of (ensureDetached rc y w))) ∧
  trace (ensureDetached rc y (world_of (ensureDetached rc x w)))
  = trace (ensureDetached rc y w).
Proof.
  split.
  - rewrite !(world_of_ensureDetached _ _ (world_of _)),
      !desired_ensureDetached, !world_of_ensureDetached.
    repeat case_match; simpl; try done.
    by rewrite (mark_commute independent).
  - apply trace_ensureDetached_ext; [apply desired_ensureDetached|].
    rewrite world_of_ensureDetached.
    repeat case_match; simpl; try done.
    apply (mark_answer independent).
Qed.
End Order.

(** C7.  Two pairs of caches that differ only in the order in which they
    enumerate their edges, started in the same world: the iteration ends in
    the same world and its trace is a permutation of the other trace, so the
    attach commands, the detach commands, the touches and the
    [MarkDesireToDetach] calls are the same multisets.  The actual-state
    cache keeps the contract that the processing of one edge is independent
    of that of another. *)
Theorem enumeration_order_is_unobservable {D A : Type}
    (dcache : DesiredStateOfWorld D) (acache : ActualStateOfWorld A)
    (orderD : list VolumeToAttach.t → list VolumeToAttach.t)
    (orderA : list AttachedVolume.t → list AttachedVolume.t)
    (rc : reconciler) (w : World D A) :
  edgesIndependent A →
  (∀ l, orderD l ≡ₚ l) →
  (∀ l, orderA l ≡ₚ l) →
  let here := @reconciliationLoopFunc D A dcache acache rc w in
  let there :=
    @reconciliationLoopFunc D A (reorderDesired orderD dcache)
      (reorderActual orderA acache) rc w in
  world_of there = world_of here ∧
  trace there ≡ₚ trace here ∧
  attachCalls (trace there) ≡ₚ attachCalls (trace here) ∧
  detachCalls (trace there) ≡ₚ detachCalls (trace here) ∧
  touchCalls (trace there) ≡ₚ touchCalls (trace here) ∧
  markCalls (trace there) ≡ₚ markCalls (trace here).
Proof.
  intros Hindependent HorderD HorderA here there.
  assert (Hboth : world_of there = world_of here ∧ trace there ≡ₚ trace here).
  { subst here there.
    pose proof (@iteration_loops D A (reorderDesired orderD dcache)
                  (reorderActual orderA acache) rc w) as Hthere.
    pose proof (@world_of_iteration D A (reorderDesired orderD dcache)
                  (reorderActual orderA acache) rc w) as Hwthere.
    pose proof (@iteration_loops D A dcache acache rc w) as Hhere.
    pose proof (@world_of_iteration D A dcache acache rc w) as Hwhere.
    unfold iteration in Hthere, Hhere.
    rewrite Hthere, Hwthere, Hhere, Hwhere.
    unfold attachedVolumesSeen, afterAttachLoop, volumesToAttachSeen.
    change (@GetVolumesToAttach D (reorderDesired orderD dcache) (desired w))
      with (orderD (@GetVolumesToAttach D dcache (desired w))).
    change (@ensureAttached D A (reorderActual orderA acache))
      with (@ensureAttached D A acache).
    change (@ensureDetached D A (reorderDesired orderD dcache)
              (reorderActual orderA acache))
      with (@ensureDetached D A dcache acache).
    destruct (forRange_Permutation (@ensureAttached D A acache)
                (orderD (GetVolumesToAttach (desired w)))
                (GetVolumesToAttach (desired w))
                (ensureAttached_commute Hindependent) (HorderD _) w)
      as [Hw1 Ht1].
    rewrite Hw1, Ht1.
    set (w1 := world_of (forRange (GetVolumesToAttach (desired w))
                           ensureAttached w)).
    change (@GetAttachedVolumes A (reorderActual orderA acache) (actual w1))
      with (orderA (@GetAttachedVolumes A acache (actual w1))).
    destruct (forRange_Permutation (@ensureDetached D A dcache acache rc)
                (orderA (GetAttachedVolumes (actual w1)))
                (GetAttachedVolumes (actual w1))
                (ensureDetached_commute Hindependent rc) (HorderA _) w1)
      as [Hw2 Ht2].
    by rewrite Hw2, Ht2. }
  destruct Hboth as [Hworld Htrace].
  split; [done|]. split; [done|].
  unfold attachCalls, detachCalls, touchCalls, markCalls.
  by rewrite !Htrace.
Qed.

(** The reference cache keeps the contract. *)
Section CacheIndependence.
Import Cache.

Lemma Cache_touch_answer s1 n1 s2 n2 (asw : actualStateOfWorld) :
    (AddVolumeNode s2 n2 (AddVolumeNode s1 n1 asw).2).1
    = (AddVolumeNode s2 n2 asw).1.
Proof.
  simpl. unfold addVolumeNode.
  destruct (attachedVolumes asw !! (UniqueVolumeName s1, n1)) as [e1|] eqn:H1;
    simpl; [|done].
  destruct (decide ((UniqueVolumeName s1, n1) = (UniqueVolumeName s2, n2)))
    as [Heq|Hne].
  - rewrite <- Heq, lookup_insert_eq, H1. done.
  - rewrite lookup_insert_ne by done.
    by destruct (attachedVolumes asw !! (UniqueVolumeName s2, n2)).
Qed.

Lemma Cache_touch_commute s1 n1 s2 n2 (asw : actualStateOfWorld) :
    (AddVolumeNode s2 n2 (AddVolumeNode s1 n1 asw).2).2
    = (AddVolumeNode s1 n1 (AddVolumeNode s2 n2 asw).2).2.
Proof.
  simpl. unfold addVolumeNode.
  destruct (decide ((UniqueVolumeName s1, n1) = (UniqueVolumeName s2, n2)))
    as [Heq|Hne].
  - injection Heq as Hu ->. rewrite <- Hu. reflexivity.
  - destruct (attachedVolumes asw !! (UniqueVolumeName s1, n1)) as [e1|] eqn:H1,
      (attachedVolumes asw !! (UniqueVolumeName s2, n2)) as [e2|] eqn:H2;
      simpl; rewrite ?lookup_insert_ne, ?H1, ?H2 by done; simpl; try done.
    f_equal. by apply insert_insert_ne.
Qed.

Lemma Cache_mark_answer v1 n1 v2 n2 (asw : actualStateOfWorld) :
    (MarkDesireToDetach v2 n2 (MarkDesireToDetach v1 n1 asw).2).1
    = (MarkDesireToDetach v2 n2 asw).1.
Proof.
  simpl. unfold markDesireToDetach.
  destruct (attachedVolumes asw !! (v1, n1)) as [e1|] eqn:H1; simpl; [|done].
  destruct (decide ((v1, n1) = (v2, n2))) as [Heq|Hne].
  - rewrite <- Heq, lookup_insert_eq, H1. simpl. done.
  - rewrite lookup_insert_ne by done.
    by destruct (attachedVolumes asw !! (v2, n2)).
Qed.

Lemma Cache_mark_commute v1 n1 v2 n2 (asw : actualStateOfWorld) :
    (MarkDesireToDetach v2 n2 (MarkDesireToDetach v1 n1 asw).2).2
    = (MarkDesireToDetach v1 n1 (MarkDesireToDetach v2 n2 asw).2).2.
Proof.
  simpl. unfold markDesireToDetach.
  destruct (decide ((v1, n1) = (v2, n2))) as [Heq|Hne].
  - by injection Heq as -> ->.
  - destruct (attachedVolumes asw !! (v1, n1)) as [e1|] eqn:H1,
      (attachedVolumes asw !! (v2, n2)) as [e2|] eqn:H2;
      simpl; rewrite ?lookup_insert_ne, ?H1, ?H2 by done; simpl; try done.
    f_equal. by apply insert_insert_ne.
Qed.

Lemma Cache_edgesIndependent : edgesIndependent actualStateOfWorld.
Proof.
  split.
  - apply Cache_touch_membership.
  - apply Cache_touch_answer.
  - apply Cache_touch_commute.
  - apply Cache_mark_answer.
  - apply Cache_mark_commute.
Qed.
End CacheIndependence.

(** A run of C7: the caches of the world with one edge of every kind
    enumerate in the reverse order; the trace is another one, with the same
    events. *)
Lemma enumeration_order_is_unobservable_witness :
  edgesIndependent Cache.actualStateOfWorld ∧
  (∀ l : list VolumeToAttach.t, reverse l ≡ₚ l) ∧
  (∀ l : list AttachedVolume.t, reverse l ≡ₚ l) ∧
  let here := reconciliationLoopFunc Scenario.rc (Scenario.mixed (6 * Second)) in
  let there :=
    @reconciliationLoopFunc _ _ (reorderDesired reverse Cache.desired_cache)
      (reorderActual reverse Cache.actual_cache)
      Scenario.rc (Scenario.mixed (6 * Second)) in
  trace there ≠ trace here ∧
  trace there ≡ₚ trace here ∧
  detachCalls (trace there) ≡ₚ detachCalls (trace here).
Proof.
  split; [apply Cache_edgesIndependent|].
  split; [apply reverse_Permutation|].
  split; [apply reverse_Permutation|].
  intros here there. split; [compute_done|].
  pose proof (enumeration_order_is_unobservable Cache.desired_cache
                Cache.actual_cache reverse reverse Scenario.rc
                (Scenario.mixed (6 * Second)) Cache_edgesIndependent
                reverse_Permutation reverse_Permutation)
    as (_ & Htrace & _ & Hdetach & _).
  split; [exact Htrace|exact Hdetach].
Defined.

(** ** The periodic loop *)

Section Periodic.
Context {W : Type}.
Implicit Types (f : M W unit) (env : Environment W) (w : W).

(** The schedule seen from the second execution on is the schedule of a loop
    that starts one period after the first body returned. *)
Lemma nthExecution_shift f period env now w (i : nat) :
  nthExecution f period env now w (S i)
  = nthExecution f period env
      (now + Z.max 0 (took env w) + Z.max 0 period)
      (between env (now + Z.max 0 (took env w) + Z.max 0 period)
         (world_of (f w))) i.
Proof.
  induction i as [|i IH]; [reflexivity|].
  change (nthExecution f period env now w (S (S i)))
    with (let '(began, wi) := nthExecution f period env now w (S i) in
          let next := began + Z.max 0 (took env wi) + Z.max 0 period in
          (next, between env next (world_of (f wi)))).
  rewrite IH. reflexivity.
Qed.

(** The executions of [Until], one by one: the [i]-th execution exists
    exactly when the loop has been unrolled that far and the stop channel
    was open each time a later execution was due, and then it is the
    function run on schedule. *)
Lemma Until_lookup (n : nat) f period stopCh env now w (i : nat) x :
  Until n f period stopCh env now w !! i = Some x ↔
  (i < n)%nat ∧
  (∀ j : nat, (0 < j ≤ i)%nat →
     fired stopCh (nthExecution f period env now w j).1 = false) ∧
  x = {| started := (nthExecution f period env now w i).1;
         returned := (nthExecution f period env now w i).1
                     + Z.max 0 (took env (nthExecution f period env now w i).2);
         produced := trace (f (nthExecution f period env now w i).2) |}.
Proof.
  revert now w i. induction n as [|n IH]; intros now w i.
  { split; [intros Hnone; discriminate Hnone|intros [Hlt _]; lia]. }
  destruct i as [|i].
  - simpl. split.
    + intros [= <-]. split; [lia|]. split; [intros j Hj; lia|reflexivity].
    + intros (_ & _ & ->). reflexivity.
  - change (Until (S n) f period stopCh env now w !! S i)
      with ((if fired stopCh (now + Z.max 0 (took env w) + Z.max 0 period)
             then []
             else Until n f period stopCh env
                    (now + Z.max 0 (took env w) + Z.max 0 period)
                    (between env (now + Z.max 0 (took env w) + Z.max 0 period)
                       (world_of (f w)))) !! i).
    rewrite nthExecution_shift.
    destruct (fired stopCh (now + Z.max 0 (took env w) + Z.max 0 period))
      eqn:Hfired.
    + split; [intros Hnone; discriminate Hnone|].
      intros (_ & Hopen & _).
      specialize (Hopen 1%nat ltac:(lia)).
      rewrite nthExecution_shift in Hopen. simpl in Hopen. congruence.
    + rewrite IH. split.
      * intros (Hlt & Hopen & ->). split; [lia|]. split; [|reflexivity].
        intros [|j] Hj; [lia|]. rewrite nthExecution_shift.
        destruct j as [|j]; [exact Hfired|]. apply Hopen. lia.
      * intros (Hlt & Hopen & ->). split; [lia|]. split; [|reflexivity].
        intros j Hj. specialize (Hopen (S j) ltac:(lia)).
        by rewrite nthExecution_shift in Hopen.
Qed.
End Periodic.

(** C9.  [Run] executes the reconciliation function on schedule and does
    nothing else.  Its [i]-th execution exists exactly when the loop has
    been unrolled that far and the stop channel had not fired each time an
    execution after the first was due; it then begins at the scheduled time
    and is the reconciliation function run in the world of that time.  The
    first execution begins at once in the world at hand; each further one
    begins [loopPeriod] after the body of the one before has returned, so
    never before it has returned, in the world that body left behind; and
    once the stop channel has fired at the time an execution is due, neither
    that execution nor any later one takes place. *)
Theorem Run_is_periodic {D A : Type} `{!DesiredStateOfWorld D}
    `{!ActualStateOfWorld A} (n : nat) (rc : reconciler) (stopCh : option Z)
    (env : Environment (World D A)) (now : Z) (w : World D A) :
  let schedule :=
    nthExecution (reconciliationLoopFunc rc) (loopPeriod rc) env now w in
  let begins (i : nat) := (schedule i).1 in
  let world (i : nat) := (schedule i).2 in
  let returns (i : nat) := begins i + Z.max 0 (took env (world i)) in
  (∀ (i : nat) x,
     Run n rc stopCh env now w !! i = Some x ↔
     (i < n)%nat ∧
     (∀ j : nat, (0 < j ≤ i)%nat → fired stopCh (begins j) = false) ∧
     x = {| started := begins i;
            returned := returns i;
            produced := iteration rc (world i) |}) ∧
  begins 0%nat = now ∧
  world 0%nat = w ∧
  (∀ i : nat,
     begins (S i) = returns i + Z.max 0 (loopPeriod rc) ∧
     begins i ≤ returns i ≤ begins (S i) ∧
     world (S i)
     = between env (begins (S i))
         (world_of (reconciliationLoopFunc rc (world i)))) ∧
  (∀ (i j : nat),
     (0 < j ≤ i)%nat → fired stopCh (begins j) = true →
     Run n rc stopCh env now w !! i = None).
Proof.
  intros schedule begins world returns.
  assert (Hlookup : ∀ (i : nat) x,
     Run n rc stopCh env now w !! i = Some x ↔
     (i < n)%nat ∧
     (∀ j : nat, (0 < j ≤ i)%nat → fired stopCh (begins j) = false) ∧
     x = {| started := begins i;
            returned := returns i;
            produced := iteration rc (world i) |}).
  { intros i x. apply Until_lookup. }
  split; [exact Hlookup|]. split; [reflexivity|]. split; [reflexivity|].
  split.
  - intros i. subst returns begins world schedule. cbv beta.
    change (nthExecution (reconciliationLoopFunc rc) (loopPeriod rc) env now w
              (S i))
      with (let '(began, wi) :=
              nthExecution (reconciliationLoopFunc rc) (loopPeriod rc) env
                now w i in
            let next := began + Z.max 0 (took env wi)
                        + Z.max 0 (loopPeriod rc) in
            (next, between env next (world_of (reconciliationLoopFunc rc wi)))).
    destruct (nthExecution (reconciliationLoopFunc rc) (loopPeriod rc) env
                now w i) as [began wi].
    simpl. split; [reflexivity|]. split; [lia|reflexivity].
  - intros i j Hj Hfired.
    destruct (Run n rc stopCh env now w !! i) as [x|] eqn:Hx; [|reflexivity].
    apply Hlookup in Hx as (_ & Hopen & _).
    rewrite (Hopen j Hj) in Hfired. discriminate Hfired.
Qed.

(** A run of C9, Scenario A: with a period of 1s and the stop channel closed
    at 3.5s, the loop function is executed at 0s, 1s, 2s and 3s; the third
    execution is the reconciliation function run in the world of 2s, where
    the grace timer has run for 2s, and there is no fifth execution. *)
Lemma Run_is_periodic_witness :
  started <$> Run 10 Scenario.rc (Some (3500 * Millisecond)) Cache.quiet 0
                (Scenario.unsafeActualOnly 0)
  = [0; 1 * Second; 2 * Second; 3 * Second] ∧
  Run 10 Scenario.rc (Some (3500 * Millisecond)) Cache.quiet 0
    (Scenario.unsafeActualOnly 0) !! 2%nat
  = Some {| started := 2 * Second;
            returned := 2 * Second;
            produced := iteration Scenario.rc
                          (Scenario.unsafeActualOnly (2 * Second)) |} ∧
  Run 10 Scenario.rc (Some (3500 * Millisecond)) Cache.quiet 0
    (Scenario.unsafeActualOnly 0) !! 4%nat = None.
Proof.
  pose proof (Run_is_periodic 10 Scenario.rc (Some (3500 * Millisecond))
                Cache.quiet 0 (Scenario.unsafeActualOnly 0))
    as (Hlookup & _ & _ & _ & Hstopped).
  split; [compute_done|]. split.
  - apply Hlookup. split; [lia|]. split.
    + intros [|[|[|j]]] Hj; [lia|reflexivity|reflexivity|lia].
    + reflexivity.
  - apply (Hstopped 4%nat 4%nat); [lia|reflexivity].
Defined.


(** * Further properties of the reconciliation loop *)

Section Accounting.
Context {D A : Type} `{!DesiredStateOfWorld D} `{!ActualStateOfWorld A}.
Implicit Types (w : World D A) (rc : reconciler).

Lemma markCalls_calls (tr : list Event) : markCalls (calls tr) = markCalls tr.
Proof.
  induction tr as [|[] tr IH]; csimpl; rewrite ?IH; done.
Qed.




(** The grace-timer calls of the second loop, in order. *)
Lemma markCalls_detachLoop rc (l : list AttachedVolume.t) w :
  markCalls (trace (forRange l (ensureDetached rc) w))
  = AttachedVolume.key
    <$> filter (λ a, VolumeExists (AttachedVolume.VolumeName a)
                       (AttachedVolume.NodeName a) (desired w) = false ∧
                     AttachedVolume.SafeToDetach a = false) l.
Proof.
  revert w. induction l as [|a l IH]; intros w; [done|].
  rewrite trace_forRange_cons. unfold markCalls. rewrite omap_app.
  fold (markCalls (trace (ensureDetached rc a w))).
  fold (markCalls (trace (forRange l (ensureDetached rc)
                            (world_of (ensureDetached rc a w))))).
  rewrite IH, desired_ensureDetached.
  rewrite <- markCalls_calls, calls_ensureDetached. cbv zeta.
  rewrite filter_cons.
  destruct (VolumeExists _ _ (desired w)) eqn:Hwanted.
  { rewrite decide_False by (intros [? _]; done). done. }
  destruct (AttachedVolume.SafeToDetach a) eqn:Hsafe.
  { rewrite decide_False by (intros [_ ?]; done). done. }
  rewrite decide_True by done. csimpl.
  by destruct (_ >? _).
Qed.

Lemma markCalls_attachLoop (l : list VolumeToAttach.t) w :
  markCalls (trace (forRange l ensureAttached w)) = [].
Proof.
  revert w. induction l as [|d l IH]; intros w; [done|].
  rewrite trace_forRange_cons. unfold markCalls. rewrite omap_app.
  fold (markCalls (trace (ensureAttached d w))).
  fold (markCalls (trace (forRange l ensureAttached
                            (world_of (ensureAttached d w))))).
  rewrite IH, <- markCalls_calls, calls_ensureAttached.
  by destruct (isAttached w d).
Qed.

(** X2.  The [MarkDesireToDetach] calls of an iteration are, in the order
    of the enumeration and one call per enumerated entry, the keys of the
    actual edges that are not desired and not safe to detach; no other key
    is marked. *)
Theorem marked_edges_in_order rc w :
  markCalls (iteration rc w)
  = AttachedVolume.key
    <$> filter (λ a, VolumeExists (AttachedVolume.VolumeName a)
                       (AttachedVolume.NodeName a) (desired w) = false ∧
                     AttachedVolume.SafeToDetach a = false)
          (attachedVolumesSeen w).
Proof.
  rewrite iteration_loops. unfold markCalls. rewrite omap_app.
  fold (markCalls (trace (forRange (volumesToAttachSeen w) ensureAttached w))).
  fold (markCalls (trace (forRange (attachedVolumesSeen w)
                            (ensureDetached rc) (afterAttachLoop w)))).
  rewrite markCalls_attachLoop, markCalls_detachLoop, desired_afterAttachLoop.
  done.
Qed.
End Accounting.

Section DetachOrder.
Context {D A : Type} `{!DesiredStateOfWorld D} `{!ActualStateOfWorld A}.
Implicit Types (w : World D A) (rc : reconciler).

Lemma detachCalls_attachLoop (l : list VolumeToAttach.t) w :
  detachCalls (trace (forRange l ensureAttached w)) = [].
Proof.
  revert w. induction l as [|d l IH]; intros w; [done|].
  rewrite trace_forRange_cons. unfold detachCalls. rewrite omap_app.
  fold (detachCalls (trace (ensureAttached d w))).
  fold (detachCalls (trace (forRange l ensureAttached
                              (world_of (ensureAttached d w))))).
  rewrite IH, <- detachCalls_calls, calls_ensureAttached.
  by destruct (isAttached w d).
Qed.

Lemma detachCalls_detachLoop_between rc (l : list AttachedVolume.t) w :
  filter (λ a, VolumeExists (AttachedVolume.VolumeName a)
                 (AttachedVolume.NodeName a) (desired w) = false ∧
               AttachedVolume.SafeToDetach a = true) l
  `sublist_of` detachCalls (trace (forRange l (ensureDetached rc) w)) ∧
  detachCalls (trace (forRange l (ensureDetached rc) w))
  `sublist_of` filter (λ a, VolumeExists (AttachedVolume.VolumeName a)
                              (AttachedVolume.NodeName a) (desired w) = false) l.
Proof.
  revert w. induction l as [|a l IH]; intros w; [done|].
  rewrite trace_forRange_cons. unfold detachCalls. rewrite omap_app.
  fold (detachCalls (trace (ensureDetached rc a w))).
  fold (detachCalls (trace (forRange l (ensureDetached rc)
                              (world_of (ensureDetached rc a w))))).
  destruct (IH (world_of (ensureDetached rc a w))) as [IHlow IHhigh].
  rewrite desired_ensureDetached in IHlow, IHhigh.
  rewrite <- detachCalls_calls, calls_ensureDetached. cbv zeta.
  rewrite !filter_cons.
  destruct (VolumeExists _ _ (desired w)) eqn:Hwanted.
  { rewrite decide_False by (intros [? _]; done).
    rewrite decide_False by done. done. }
  rewrite (decide_True (P := false = false)) by done.
  destruct (AttachedVolume.SafeToDetach a) eqn:Hsafe.
  { rewrite decide_True by done. csimpl.
    split; by apply sublist_skip. }
  rewrite decide_False by (intros [_ ?]; done). csimpl.
  destruct (_ >? _); csimpl.
  - split; [by apply sublist_cons|by apply sublist_skip].
  - split; [done|by apply sublist_cons].
Qed.

(** X3.  The detach commands of an iteration follow the order of the
    enumeration of the actual state.  Every enumerated edge that is not
    desired and safe to detach is among them, entry by entry, and they are
    all taken from the enumerated edges that are not desired: at most one
    command per entry, and none for an edge the desired state has. *)
Theorem detach_commands_in_order rc w :
  filter (λ a, VolumeExists (AttachedVolume.VolumeName a)
                 (AttachedVolume.NodeName a) (desired w) = false ∧
               AttachedVolume.SafeToDetach a = true) (attachedVolumesSeen w)
  `sublist_of` detachCalls (iteration rc w) ∧
  detachCalls (iteration rc w)
  `sublist_of` filter (λ a, VolumeExists (AttachedVolume.VolumeName a)
                              (AttachedVolume.NodeName a) (desired w) = false)
                 (attachedVolumesSeen w).
Proof.
  rewrite iteration_loops. unfold detachCalls. rewrite omap_app.
  fold (detachCalls (trace (forRange (volumesToAttachSeen w) ensureAttached w))).
  fold (detachCalls (trace (forRange (attachedVolumesSeen w)
                              (ensureDetached rc) (afterAttachLoop w)))).
  rewrite detachCalls_attachLoop. simpl.
  pose proof (detachCalls_detachLoop_between rc (attachedVolumesSeen w)
                (afterAttachLoop w)) as Hbetween.
  by rewrite desired_afterAttachLoop in Hbetween.
Qed.
End DetachOrder.


Section Logging.
Context {D A : Type} `{!DesiredStateOfWorld D} `{!ActualStateOfWorld A}.
Implicit Types (w : World D A) (rc : reconciler).

(** A property of traces that holds of every round holds of the loop, when
    it is stated with projections of the trace. *)
Lemma omap_forRange_eq {W X B C} (g : Event → option B) (h : Event → option C)
    (k : B → C) (l : list X) (f : X → M W unit) (s0 : W) :
  (∀ x (s : W), k <$> omap g (trace (f x s)) = omap h (trace (f x s))) →
  k <$> omap g (trace (forRange l f s0)) = omap h (trace (forRange l f s0)).
Proof.
  intros Hround. revert s0. induction l as [|x l IH]; intros s0; [done|].
  rewrite trace_forRange_cons, !omap_app, fmap_app, Hround, IH. done.
Qed.

Lemma errorLines_attach_round (d : VolumeToAttach.t) w :
  id <$> errorLines (trace (ensureAttached d w))
  = mutatorErrors (trace (ensureAttached d w)).
Proof.
  rewrite list_fmap_id.
  unfold ensureAttached, bind, volumeNodeExists, addVolumeNode,
    attachVolume, emit, trace; simpl.
  destruct (VolumeNodeExists _ _ (actual w)); simpl; [|done].
  destruct (AddVolumeNode _ _ (actual w)) as [[name [err|]] asw]; done.
Qed.

Lemma errorLines_detach_round rc (a : AttachedVolume.t) w :
  id <$> errorLines (trace (ensureDetached rc a w))
  = mutatorErrors (trace (ensureDetached rc a w)).
Proof.
  rewrite list_fmap_id.
  unfold ensureDetached, bind, volumeExists, markDesireToDetach,
    detachVolume, emit, trace; simpl.
  destruct (VolumeExists _ _ (desired w)); simpl; [done|].
  destruct (AttachedVolume.SafeToDetach a); simpl; [done|].
  destruct (MarkDesireToDetach _ _ (actual w))
    as [[timeElapsed [err|]] asw]; simpl;
    by destruct (timeElapsed >? maxSafeToDetachDuration rc).
Qed.

(** X4.  An iteration logs an error exactly when a cache mutator returned
    one: its [glog.Errorf] lines are, in order, one line per failed
    [AddVolumeNode] or [MarkDesireToDetach] call, under the format of that
    call and with the error it returned, and there is no other error
    line. *)
Theorem error_lines_are_mutator_errors rc w :
  errorLines (iteration rc w) = mutatorErrors (iteration rc w).
Proof.
  rewrite iteration_loops. unfold errorLines, mutatorErrors.
  rewrite !omap_app.
  pose proof (omap_forRange_eq _ _ id (volumesToAttachSeen w) ensureAttached w
                (λ d w', errorLines_attach_round d w')) as H1.
  pose proof (omap_forRange_eq _ _ id (attachedVolumesSeen w)
                (ensureDetached rc) (afterAttachLoop w)
                (λ a w', errorLines_detach_round rc a w')) as H2.
  rewrite list_fmap_id in H1, H2. unfold errorLines, mutatorErrors in H1, H2.
  by rewrite H1, H2.
Qed.

Lemma infoLines_attach_round (d : VolumeToAttach.t) w :
  infoLines 5 (trace (ensureAttached d w))
  = commandKeys (trace (ensureAttached d w)) ∧
  length (infoLines 12 (trace (ensureAttached d w)))
  = length (touchCalls (trace (ensureAttached d w))).
Proof.
  unfold ensureAttached, bind, volumeNodeExists, addVolumeNode,
    attachVolume, emit, trace; simpl.
  destruct (VolumeNodeExists _ _ (actual w)); simpl; [|done].
  destruct (AddVolumeNode _ _ (actual w)) as [[name [err|]] asw]; done.
Qed.

Lemma infoLines_detach_round rc (a : AttachedVolume.t) w :
  infoLines 5 (trace (ensureDetached rc a w))
  = commandKeys (trace (ensureDetached rc a w)) ∧
  length (infoLines 12 (trace (ensureDetached rc a w)))
  = length (touchCalls (trace (ensureDetached rc a w))).
Proof.
  unfold ensureDetached, bind, volumeExists, markDesireToDetach,
    detachVolume, emit, trace; simpl.
  destruct (VolumeExists _ _ (desired w)); simpl; [done|].
  destruct (AttachedVolume.SafeToDetach a); simpl; [done|].
  destruct (MarkDesireToDetach _ _ (actual w))
    as [[timeElapsed [err|]] asw]; simpl;
    by destruct (timeElapsed >? maxSafeToDetachDuration rc).
Qed.

Lemma infoLines_forRange {X} (l : list X) (f : X → M (World D A) unit) w :
  (∀ x w', infoLines 5 (trace (f x w')) = commandKeys (trace (f x w')) ∧
           length (infoLines 12 (trace (f x w')))
           = length (touchCalls (trace (f x w')))) →
  infoLines 5 (trace (forRange l f w)) = commandKeys (trace (forRange l f w)) ∧
  length (infoLines 12 (trace (forRange l f w)))
  = length (touchCalls (trace (forRange l f w))).
Proof.
  intros Hround. revert w. induction l as [|x l IH]; intros w; [done|].
  rewrite trace_forRange_cons. unfold infoLines, commandKeys, touchCalls.
  rewrite !omap_app, !length_app.
  destruct (Hround x w) as [H5 H12], (IH (world_of (f x w))) as [IH5 IH12].
  unfold infoLines, commandKeys, touchCalls in H5, H12, IH5, IH12.
  by rewrite H5, H12, IH5, IH12.
Qed.

(** X5.  Every command an iteration submits to the attacher/detacher is
    announced by a log line at verbosity 5 that names its volume and node,
    in the same order, and nothing else is logged at that verbosity; at
    verbosity 12 there are as many lines as there are touches. *)
Theorem commands_are_announced rc w :
  infoLines 5 (iteration rc w) = commandKeys (iteration rc w) ∧
  length (infoLines 12 (iteration rc w)) = length (touchCalls (iteration rc w)).
Proof.
  rewrite iteration_loops. unfold infoLines, commandKeys, touchCalls.
  rewrite !omap_app, !length_app.
  destruct (infoLines_forRange (volumesToAttachSeen w) ensureAttached w
              (λ d w', infoLines_attach_round d w')) as [H5 H12].
  destruct (infoLines_forRange (attachedVolumesSeen w) (ensureDetached rc)
              (afterAttachLoop w)
              (λ a w', infoLines_detach_round rc a w')) as [H5' H12'].
  unfold infoLines, commandKeys, touchCalls in H5, H12, H5', H12'.
  by rewrite H5, H12, H5', H12'.
Qed.
End Logging.

Section ActualFrame.
Context {D A : Type} `{!DesiredStateOfWorld D} `{!ActualStateOfWorld A}.
Implicit Types (w : World D A) (rc : reconciler).



End ActualFrame.


Section Maximum.
Context {D A : Type} `{!DesiredStateOfWorld D} `{!ActualStateOfWorld A}.
Implicit Types (w : World D A) (rc : reconciler).

Lemma detachLoop_maximum rc1 rc2 (l : list AttachedVolume.t) w :
  maxSafeToDetachDuration rc1 ≤ maxSafeToDetachDuration rc2 →
  world_of (forRange l (ensureDetached rc2) w)
  = world_of (forRange l (ensureDetached rc1) w) ∧
  detachCalls (trace (forRange l (ensureDetached rc2) w))
  `sublist_of` detachCalls (trace (forRange l (ensureDetached rc1) w)).
Proof.
  intros Hle. revert w. induction l as [|a l IH]; intros w; [done|].
  rewrite !trace_forRange_cons, !world_of_forRange_cons.
  assert (Hw : world_of (ensureDetached rc2 a w)
               = world_of (ensureDetached rc1 a w))
    by (by rewrite !world_of_ensureDetached).
  rewrite Hw. destruct (IH (world_of (ensureDetached rc1 a w))) as [-> Hsub].
  split; [done|].
  unfold detachCalls. rewrite !omap_app. apply sublist_app; [|done].
  fold (detachCalls (trace (ensureDetached rc2 a w))).
  fold (detachCalls (trace (ensureDetached rc1 a w))).
  rewrite <- (detachCalls_calls (trace (ensureDetached rc2 a w))).
  rewrite <- (detachCalls_calls (trace (ensureDetached rc1 a w))).
  rewrite !calls_ensureDetached. cbv zeta.
  destruct (VolumeExists _ _ (desired w)); [done|].
  destruct (AttachedVolume.SafeToDetach a); [done|]. csimpl.
  destruct (Z.gtb_spec (MarkDesireToDetach (AttachedVolume.VolumeName a)
                          (AttachedVolume.NodeName a) (actual w)).1.1
              (maxSafeToDetachDuration rc2)) as [Hgt2|Hle2];
    destruct (Z.gtb_spec (MarkDesireToDetach (AttachedVolume.VolumeName a)
                            (AttachedVolume.NodeName a) (actual w)).1.1
                (maxSafeToDetachDuration rc1)) as [Hgt1|Hle1]; csimpl.
  - done.
  - lia.
  - apply sublist_nil_l.
  - done.
Qed.

(** X7.  A longer [maxSafeToDetachDuration] can only hold detach commands
    back.  From the same world, the iteration of a reconciler with the
    greater maximum ends in the same world, makes the same touches,
    [MarkDesireToDetach] calls and attach commands, and its detach commands
    are a sub-list of those of the other; [loopPeriod] plays no part. *)
Theorem longer_grace_detaches_less rc1 rc2 w :
  maxSafeToDetachDuration rc1 ≤ maxSafeToDetachDuration rc2 →
  world_of (reconciliationLoopFunc rc2 w)
  = world_of (reconciliationLoopFunc rc1 w) ∧
  touchCalls (iteration rc2 w) = touchCalls (iteration rc1 w) ∧
  attachCalls (iteration rc2 w) = attachCalls (iteration rc1 w) ∧
  markCalls (iteration rc2 w) = markCalls (iteration rc1 w) ∧
  detachCalls (iteration rc2 w) `sublist_of` detachCalls (iteration rc1 w).
Proof.
  intros Hle.
  destruct (detachLoop_maximum rc1 rc2 (attachedVolumesSeen w)
              (afterAttachLoop w) Hle) as [Hworld Hsub].
  rewrite !world_of_iteration, !iteration_loops.
  unfold touchCalls, attachCalls, markCalls, detachCalls.
  rewrite !omap_app.
  pose proof (attachCalls_detachLoop rc1 (attachedVolumesSeen w)
                (afterAttachLoop w)) as [Ha1 Ht1].
  pose proof (attachCalls_detachLoop rc2 (attachedVolumesSeen w)
                (afterAttachLoop w)) as [Ha2 Ht2].
  pose proof (markCalls_detachLoop rc1 (attachedVolumesSeen w)
                (afterAttachLoop w)) as Hm1.
  pose proof (markCalls_detachLoop rc2 (attachedVolumesSeen w)
                (afterAttachLoop w)) as Hm2.
  unfold touchCalls, attachCalls, markCalls in Ha1, Ht1, Ha2, Ht2, Hm1, Hm2.
  rewrite Ha1, Ht1, Ha2, Ht2, Hm1, Hm2.
  repeat split; try done. by apply sublist_app.
Qed.
End Maximum.

(** A run of X7: at 6s the reconciler with a maximum of 5s detaches
    [(volA, node1)], the one with a maximum of 10s does not. *)
Lemma longer_grace_detaches_less_witness :
  maxSafeToDetachDuration Scenario.rc
  ≤ maxSafeToDetachDuration (NewReconciler Second (10 * Second)) ∧
  detachCalls (iteration Scenario.rc (Scenario.mixed (6 * Second)))
  = [Scenario.volA; Scenario.volD] ∧
  detachCalls (iteration (NewReconciler Second (10 * Second))
                 (Scenario.mixed (6 * Second)))
  = [Scenario.volD] ∧
  detachCalls (iteration (NewReconciler Second (10 * Second))
                 (Scenario.mixed (6 * Second)))
  `sublist_of` detachCalls (iteration Scenario.rc (Scenario.mixed (6 * Second))).
Proof.
  assert (Hle : maxSafeToDetachDuration Scenario.rc
                ≤ maxSafeToDetachDuration (NewReconciler Second (10 * Second)))
    by (by vm_compute).
  split; [exact Hle|]. split; [compute_done|]. split; [compute_done|].
  exact (proj2 (proj2 (proj2 (proj2
           (longer_grace_detaches_less Scenario.rc
              (NewReconciler Second (10 * Second))
              (Scenario.mixed (6 * Second)) Hle))))).
Defined.

Lemma filter_none {X} (P : X → Prop) `{!∀ x, Decision (P x)} (l : list X) :
  (∀ x, x ∈ l → ¬ P x) → filter P l = [].
Proof.
  induction l as [|x l IH]; intros Hno; [done|].
  rewrite filter_cons_False by (apply Hno; by left).
  apply IH. intros y Hy. apply Hno. by right.
Qed.

Lemma filter_all {X} (P : X → Prop) `{!∀ x, Decision (P x)} (l : list X) :
  (∀ x, x ∈ l → P x) → filter P l = l.
Proof.
  induction l as [|x l IH]; intros Hall; [done|].
  rewrite filter_cons_True by (apply Hall; by left).
  f_equal. apply IH. intros y Hy. apply Hall. by right.
Qed.

Section Steady.
Context {D A : Type} `{!DesiredStateOfWorld D} `{!ActualStateOfWorld A}.
Implicit Types (w : World D A) (rc : reconciler).

(** X8.  In an iteration all touches and attach commands come before all
    [MarkDesireToDetach] calls and detach commands: the trace splits into a
    part without the latter followed by a part without the former. *)
Theorem attaching_comes_first rc w :
  ∃ t1 t2,
    iteration rc w = t1 ++ t2 ∧
    detachCalls t1 = [] ∧ markCalls t1 = [] ∧
    attachCalls t2 = [] ∧ touchCalls t2 = [].
Proof.
  exists (trace (forRange (volumesToAttachSeen w) ensureAttached w)),
         (trace (forRange (attachedVolumesSeen w) (ensureDetached rc)
                   (afterAttachLoop w))).
  split; [apply iteration_loops|].
  split; [apply detachCalls_attachLoop|].
  split; [apply markCalls_attachLoop|].
  apply attachCalls_detachLoop.
Qed.

(** X9.  When the two states agree, every enumerated desired edge being
    attached and every enumerated actual edge being desired, the iteration
    submits no command to the attacher/detacher and starts no grace timer:
    all it does is touch every desired edge, in the order of the
    enumeration. *)
Theorem steady_state_is_quiet rc w :
  touchKeepsMembership w →
  (∀ d, d ∈ volumesToAttachSeen w → isAttached w d = true) →
  (∀ a, a ∈ attachedVolumesSeen w →
        VolumeExists (AttachedVolume.VolumeName a) (AttachedVolume.NodeName a)
          (desired w) = true) →
  commandKeys (iteration rc w) = [] ∧
  markCalls (iteration rc w) = [] ∧
  touchCalls (iteration rc w) = touchOf <$> volumesToAttachSeen w.
Proof.
  intros Htouch Hattached Hwanted.
  destruct (calls_attachLoop w (volumesToAttachSeen w) w Htouch)
    as [Hattach Htouched]; [done..|].
  pose proof (detachCalls_detachLoop_between rc (attachedVolumesSeen w)
                (afterAttachLoop w)) as [_ Hdetach].
  pose proof (markCalls_detachLoop rc (attachedVolumesSeen w)
                (afterAttachLoop w)) as Hmark.
  pose proof (attachCalls_detachLoop rc (attachedVolumesSeen w)
                (afterAttachLoop w)) as [_ Htouch2].
  rewrite desired_afterAttachLoop in Hdetach, Hmark.
  rewrite filter_none in Hattach
    by (intros d Hd; rewrite (Hattached d Hd); done).
  rewrite filter_all in Htouched by done.
  rewrite filter_none in Hdetach
    by (intros a Ha; rewrite (Hwanted a Ha); done).
  rewrite filter_none in Hmark
    by (intros a Ha [Hno _]; rewrite (Hwanted a Ha) in Hno; done).
  apply sublist_nil_r in Hdetach.
  rewrite iteration_loops.
  unfold commandKeys, markCalls, touchCalls. rewrite !omap_app.
  fold (commandKeys (trace (forRange (volumesToAttachSeen w) ensureAttached w))).
  fold (commandKeys (trace (forRange (attachedVolumesSeen w)
                              (ensureDetached rc) (afterAttachLoop w)))).
  fold (markCalls (trace (forRange (volumesToAttachSeen w) ensureAttached w))).
  fold (markCalls (trace (forRange (attachedVolumesSeen w)
                            (ensureDetached rc) (afterAttachLoop w)))).
  fold (touchCalls (trace (forRange (volumesToAttachSeen w) ensureAttached w))).
  fold (touchCalls (trace (forRange (attachedVolumesSeen w)
                             (ensureDetached rc) (afterAttachLoop w)))).
  rewrite commandKeys_attach_only, commandKeys_detach_only; cycle 1.
  { intros d Hd. by apply no_attach_in_detachLoop in Hd. }
  { intros a Ha. by apply no_detach_in_attachLoop in Ha. }
  rewrite Hattach, Hdetach, Hmark, Htouch2, Htouched, markCalls_attachLoop.
  csimpl. rewrite app_nil_r. repeat split; reflexivity.
Qed.
End Steady.

(** A run of X9, Scenario D: the one edge is desired and attached; it is
    touched and nothing is submitted. *)
Lemma steady_state_is_quiet_witness :
  touchKeepsMembership Scenario.desiredAgain ∧
  (∀ d, d ∈ volumesToAttachSeen Scenario.desiredAgain →
        isAttached Scenario.desiredAgain d = true) ∧
  (∀ a, a ∈ attachedVolumesSeen Scenario.desiredAgain →
        VolumeExists (AttachedVolume.VolumeName a) (AttachedVolume.NodeName a)
          (desired Scenario.desiredAgain) = true) ∧
  commandKeys (iteration Scenario.rc Scenario.desiredAgain) = [] ∧
  touchCalls (iteration Scenario.rc Scenario.desiredAgain)
  = [touchOf Scenario.volA_wanted].
Proof.
  assert (Hd : ∀ d, d ∈ volumesToAttachSeen Scenario.desiredAgain →
                    isAttached Scenario.desiredAgain d = true).
  { intros d Hd.
    assert (Hl : volumesToAttachSeen Scenario.desiredAgain
                 = [Scenario.volA_wanted]) by compute_done.
    rewrite Hl in Hd. apply list_elem_of_singleton in Hd as ->. reflexivity. }
  assert (Ha : ∀ a, a ∈ attachedVolumesSeen Scenario.desiredAgain →
            VolumeExists (AttachedVolume.VolumeName a)
              (AttachedVolume.NodeName a) (desired Scenario.desiredAgain)
            = true).
  { intros a Ha.
    assert (Hl : attachedVolumesSeen Scenario.desiredAgain = [Scenario.volA])
      by compute_done.
    rewrite Hl in Ha. apply list_elem_of_singleton in Ha as ->. reflexivity. }
  split; [apply Cache_touchKeepsMembership|]. split; [exact Hd|].
  split; [exact Ha|].
  destruct (steady_state_is_quiet Scenario.rc _
              (Cache_touchKeepsMembership _) Hd Ha) as (Hquiet & _ & Htouched).
  split; [exact Hquiet|]. rewrite Htouched. compute_done.
Defined.
